(** * The per-request dispatch engine of Tango ([context.go])

    A shallow embedding of [Context] and of the methods that resolve the
    route, run the two-stage middleware chain, call the action and abort.

    A Go method that mutates the context becomes a computation in a small
    state-and-panic monad over the record [Context.t].  The methods
    [invoke], [execute], [Next], [Abort], [HandleError] and the handlers
    they call are mutually recursive and a handler may call [Next] from an
    action, so the recursion is bounded by a call-depth budget: every Go call
    of the cycle costs one unit. *)

From Stdlib Require Import ZArith List Ascii String Bool Lia.
From Stdlib.Strings Require Import Byte.
Import ListNotations.
Open Scope string_scope.
Open Scope Z_scope.
Open Scope list_scope.

Set Implicit Arguments.

(** ** Go integers *)

Definition max_int : Z := 2 ^ 63 - 1.
Definition min_int : Z := - 2 ^ 63.

(** [i + j] on Go's 64-bit [int], with its wrap-around. *)
Definition int_add (i j : Z) : Z :=
  let s := i + j in
  if s >? max_int then s - 2 ^ 64
  else if s <? min_int then s + 2 ^ 64
  else s.

(** [len(s)] as a Go [int]. *)
Definition len {A : Type} (s : list A) : Z := Z.of_nat (List.length s).

(** [s[i]]: [None] stands for the run-time panic "index out of range". *)
Definition index {A : Type} (s : list A) (i : Z) : option A :=
  if (0 <=? i) && (i <? len s) then nth_error s (Z.to_nat i) else None.

(** ** Dynamic values: [interface{}] and [reflect.Value] *)

Inductive Value : Type :=
| Nil                                       (* the nil interface *)
| IntV (n : Z)                              (* a Go [int] *)
| StringV (s : string)
| BoolV (b : bool)
| ErrorV (msg : string)
| Opaque (ty : string) (addr : nat)         (* any other value: dynamic type and identity *)
| ElemV (v : Value)                         (* [v.Elem()], the value a pointer refers to *)
| RequestV (addr : nat)                     (* a [*http.Request] *)
| WriterV (addr : nat)                      (* a [ResponseWriter] *)
| ContextV                                  (* the [*Context] itself *)
| AbortError (code : Z) (content : string)  (* what [Abort(status, body)] builds *)
| StatusResultPtr (code : Z) (payload : Value). (* [&StatusResult{code, payload}] *)

Definition Interface (v : Value) : Value := v.
Definition Elem (v : Value) : Value := ElemV v.

(** The type assertion [v.(int)]. *)
Definition as_int (v : Value) : option Z :=
  match v with
  | IntV n => Some n
  | _ => None
  end.

Definition is_nil (v : Value) : bool :=
  match v with
  | Nil => true
  | _ => false
  end.

Module tango.
(** Modelled from the spec: the package function [Abort] is declared outside
    [context.go]; it builds the abort result carrying the status code and the
    message. *)
Definition Abort (status : Z) (body : string) : Value := AbortError status body.
End tango.

(** [net/http]'s status codes and texts used by this file. *)
Definition StatusUnauthorized : Z := 401.
Definition StatusNotFound : Z := 404.

Definition StatusText (code : Z) : string :=
  if code =? 302 then "Found"
  else if code =? 304 then "Not Modified"
  else if code =? 401 then "Unauthorized"
  else if code =? 404 then "Not Found"
  else if code =? 500 then "Internal Server Error"
  else EmptyString.

(** ** The request and its body *)

(** An [io.ReadCloser]: the bytes not yet delivered, the error that ends the
    stream instead of [io.EOF] (if any), and whether [Close] was called.
    [nop] marks an [ioutil.NopCloser], whose [Close] does nothing.  A request
    the server hands to a handler always has a body ([net/http] never
    leaves [Body] nil there), so the reader is always present. *)
Record Reader : Type := {
  pending : list byte;
  fault : option string;
  closed : bool;
  nop : bool
}.

(** The reader once everything was read from it: nothing is pending, and the
    end of the stream was delivered, with its error if it had one; as for
    the request body of [net/http], a further read finds [io.EOF]. *)
Definition drained (r : Reader) : Reader :=
  {| pending := []; fault := None; closed := closed r; nop := nop r |}.

(** [ioutil.ReadAll(r)]: the bytes read, the error, and the reader afterwards. *)
Definition ReadAll (r : Reader) : list byte * option string * Reader :=
  if closed r then ([], Some "http: invalid Read on closed Body", r)
  else (pending r, fault r, drained r).

Definition Close (r : Reader) : Reader :=
  if nop r then r
  else {| pending := pending r; fault := fault r; closed := true; nop := false |}.

(** [ioutil.NopCloser(bytes.NewBuffer(body))]. *)
Definition NopCloser_NewBuffer (body : list byte) : Reader :=
  {| pending := body; fault := None; closed := false; nop := true |}.

Module Request.
Record t : Type := {
  addr : nat;                    (* identity of the [*http.Request] *)
  Method : string;
  URL_Path : string;
  Header : list (string * string);
  RemoteAddr : string;
  Body : Reader
}.

Definition with_Body (b : Reader) (r : t) : t :=
  {| addr := addr r; Method := Method r; URL_Path := URL_Path r;
     Header := Header r; RemoteAddr := RemoteAddr r; Body := b |}.
End Request.

(** ** The response writer *)

(** Modelled from the spec: the response writer is declared outside
    [context.go]; it tracks whether the response was written. *)
Record responseWriter : Type := {
  rw_addr : nat;                 (* identity of the writer *)
  Written : bool;
  sent : list byte
}.

Definition Write (data : list byte) (rw : responseWriter) : responseWriter :=
  {| rw_addr := rw_addr rw; Written := true; sent := sent rw ++ data |}.

Definition Params : Type := option (list (string * string)).

(** ** Handlers

    A [Handler] is code of the application that receives the context pointer and
    uses its exported interface.  Its body is a tree of calls on the context,
    branching on what the context lets it observe. *)

Record View : Type := {
  seen_req : Request.t;
  seen_Written : bool;
  seen_Result : Value;
  seen_action : Value;
  seen_params : Params
}.

Inductive op : Type :=
| CallNext
| CallAbort (status : Z) (body : string)
| CallNotFound (message : list string)
| CallUnauthorized
| CallHandleError
| CallRoute
| CallParams
| CallAction
| CallBody
| SetResult (v : Value)                   (* [ctx.Result = v] *)
| CallWrite (data : list byte)            (* [ctx.Write(data)] *)
| GoPanic (msg : string).                 (* [panic(msg)] *)

Inductive prog : Type :=
| Return (vs : list Value)
| Do (o : op) (k : prog)
| Branch (cond : View -> bool) (yes no : prog).

(** Modelled from the spec: the type [RouteType] and its constants are
    declared outside [context.go].  The seven kinds are those of the
    calling-convention table; [OtherRouteType] stands for every other value
    the byte can hold. *)
Inductive RouteType : Type :=
| FuncRoute
| FuncHttpRoute
| FuncReqRoute
| FuncResponseRoute
| FuncCtxRoute
| StructRoute
| StructPtrRoute
| OtherRouteType (tag : Z).

(** The dynamic type of [route.raw], as the type switch of [execute] sees it. *)
Inductive Raw : Type :=
| RawCtx (fn : prog)                                    (* func(ctx *Context) *)
| RawReqResp (fn : Request.t -> responseWriter -> Request.t * responseWriter)
                                                        (* func(r *http.Request, w http.ResponseWriter) *)
| RawFunc                                               (* func() *)
| RawReq (fn : Request.t -> Request.t)                      (* func(r *http.Request) *)
| RawResp (fn : responseWriter -> responseWriter)       (* func(http.ResponseWriter) *)
| RawOther (ty : string).                               (* every other dynamic type *)

Module Route.
(** Modelled from the spec: [Route] is declared outside [context.go]; these
    are the fields and the factory [context.go] uses. *)
Record t : Type := {
  routeType : RouteType;
  handlers : list prog;
  raw : Raw;
  method : list Value -> prog;     (* [method.Call(args)]: body and returned values *)
  newAction : Value                (* [route.newAction()] *)
}.
End Route.

Module Tango.
(** Modelled from the spec: [Tango] is declared outside [context.go]; these
    are the global handlers, the error handler and the matcher [context.go]
    uses. *)
Record t : Type := {
  handlers : list prog;
  ErrHandler : prog;
  Match : string -> string -> option Route.t * Params
}.
End Tango.

(** ** What the run leaves behind: a ghost log of the calls made *)

Inductive CallKind : Type := Direct | Reflective.

Inductive event : Type :=
| EvMatch (reqPath method : string)       (* [ctx.tan.Match(reqPath, method)] *)
| EvNewAction                             (* [ctx.route.newAction()] *)
| EvGlobal (i : Z)                        (* [ctx.tan.handlers[i].Handle(ctx)] *)
| EvLocal (i : Z)                         (* [ctx.route.handlers[i].Handle(ctx)] *)
| EvStage (idx_before : Z)                (* [ctx.idx = 0; ctx.stage = 1] in [execute] *)
| EvCall (how : CallKind) (args : list Value)  (* the action is called *)
| EvErr (res : Value).                    (* [ctx.tan.ErrHandler.Handle(ctx)], with [ctx.Result] *)

(** ** [strings.Split] and [Header.Get] *)

(** [strings.Split(s, sep)] for a separator of one byte: the pieces of [s]
    between the separators, [s] itself when it holds none. *)
Fixpoint Split (s : string) (sep : ascii) : list string :=
  match s with
  | EmptyString => [EmptyString]
  | String a rest =>
      if Ascii.eqb a sep then EmptyString :: Split rest sep
      else
        match Split rest sep with
        | piece :: pieces => String a piece :: pieces
        | [] => [String a EmptyString]
        end
  end.

(** [h.Get(key)]: the first value stored under [key], the empty string when
    there is none. *)
Fixpoint Header_Get (h : list (string * string)) (key : string) : string :=
  match h with
  | [] => EmptyString
  | (k, v) :: h' => if String.eqb k key then v else Header_Get h' key
  end.

Module Context.

Record t : Type := {
  tan : Tango.t;
  Logger : nat;
  idx : Z;
  req : Request.t;
  ResponseWriter : responseWriter;
  route : option Route.t;
  params : Params;
  callArgs : option (list Value);
  matched : bool;
  stage : Z;
  action : Value;
  Result : Value;
  log : list event             (* ghost *)
}.

Definition with_idx (v : Z) (c : t) : t :=
  {| tan := tan c; Logger := Logger c; idx := v; req := req c;
     ResponseWriter := ResponseWriter c; route := route c; params := params c;
     callArgs := callArgs c; matched := matched c; stage := stage c;
     action := action c; Result := Result c; log := log c |}.

Definition with_req (v : Request.t) (c : t) : t :=
  {| tan := tan c; Logger := Logger c; idx := idx c; req := v;
     ResponseWriter := ResponseWriter c; route := route c; params := params c;
     callArgs := callArgs c; matched := matched c; stage := stage c;
     action := action c; Result := Result c; log := log c |}.

Definition with_ResponseWriter (v : responseWriter) (c : t) : t :=
  {| tan := tan c; Logger := Logger c; idx := idx c; req := req c;
     ResponseWriter := v; route := route c; params := params c;
     callArgs := callArgs c; matched := matched c; stage := stage c;
     action := action c; Result := Result c; log := log c |}.

Definition with_route (v : option Route.t) (c : t) : t :=
  {| tan := tan c; Logger := Logger c; idx := idx c; req := req c;
     ResponseWriter := ResponseWriter c; route := v; params := params c;
     callArgs := callArgs c; matched := matched c; stage := stage c;
     action := action c; Result := Result c; log := log c |}.

Definition with_params (v : Params) (c : t) : t :=
  {| tan := tan c; Logger := Logger c; idx := idx c; req := req c;
     ResponseWriter := ResponseWriter c; route := route c; params := v;
     callArgs := callArgs c; matched := matched c; stage := stage c;
     action := action c; Result := Result c; log := log c |}.

Definition with_callArgs (v : option (list Value)) (c : t) : t :=
  {| tan := tan c; Logger := Logger c; idx := idx c; req := req c;
     ResponseWriter := ResponseWriter c; route := route c; params := params c;
     callArgs := v; matched := matched c; stage := stage c;
     action := action c; Result := Result c; log := log c |}.

Definition with_matched (v : bool) (c : t) : t :=
  {| tan := tan c; Logger := Logger c; idx := idx c; req := req c;
     ResponseWriter := ResponseWriter c; route := route c; params := params c;
     callArgs := callArgs c; matched := v; stage := stage c;
     action := action c; Result := Result c; log := log c |}.

Definition with_stage (v : Z) (c : t) : t :=
  {| tan := tan c; Logger := Logger c; idx := idx c; req := req c;
     ResponseWriter := ResponseWriter c; route := route c; params := params c;
     callArgs := callArgs c; matched := matched c; stage := v;
     action := action c; Result := Result c; log := log c |}.

Definition with_action (v : Value) (c : t) : t :=
  {| tan := tan c; Logger := Logger c; idx := idx c; req := req c;
     ResponseWriter := ResponseWriter c; route := route c; params := params c;
     callArgs := callArgs c; matched := matched c; stage := stage c;
     action := v; Result := Result c; log := log c |}.

Definition with_Result (v : Value) (c : t) : t :=
  {| tan := tan c; Logger := Logger c; idx := idx c; req := req c;
     ResponseWriter := ResponseWriter c; route := route c; params := params c;
     callArgs := callArgs c; matched := matched c; stage := stage c;
     action := action c; Result := v; log := log c |}.

(** Appends one event to the ghost log. *)
Definition emit (e : event) (c : t) : t :=
  {| tan := tan c; Logger := Logger c; idx := idx c; req := req c;
     ResponseWriter := ResponseWriter c; route := route c; params := params c;
     callArgs := callArgs c; matched := matched c; stage := stage c;
     action := action c; Result := Result c; log := log c ++ [e] |}.

(** *** The monad: state, panics, and an exhausted call budget *)

Inductive Res (A : Type) : Type :=
| Ok (a : A) (c : t)
| Panicked (msg : string) (c : t)
| OutOfFuel (c : t).
Arguments Panicked {A} msg c.
Arguments OutOfFuel {A} c.

Definition M (A : Type) : Type := t -> Res A.

Definition ret {A : Type} (a : A) : M A := fun c => Ok a c.

Definition bind {A B : Type} (m : M A) (k : A -> M B) : M B :=
  fun c =>
    match m c with
    | Ok a c' => k a c'
    | Panicked msg c' => Panicked msg c'
    | OutOfFuel c' => OutOfFuel c'
    end.

Definition get : M t := fun c => Ok c c.
Definition modify (f : t -> t) : M unit := fun c => Ok tt (f c).
Definition panic {A : Type} (msg : string) : M A := fun c => Panicked msg c.

(** The context an outcome ends in, whatever the outcome. *)
Definition final {A : Type} (r : Res A) : t :=
  match r with
  | Ok _ c => c
  | Panicked _ c => c
  | OutOfFuel c => c
  end.

Notation "x <- m ;; k" := (bind m (fun x => k))
  (at level 61, m at next level, right associativity).
Notation "m ;;; k" := (bind m (fun _ => k))
  (at level 61, right associativity).

(** What a handler can observe of the context. *)
Definition view (c : t) : View :=
  {| seen_req := req c; seen_Written := Written (ResponseWriter c);
     seen_Result := Result c; seen_action := action c;
     seen_params := params c |}.

(** *** [reset], [Req] *)

Definition reset (req' : Request.t) (resp : responseWriter) (c : t) : t :=
  {| tan := tan c; Logger := Logger c;
     idx := 0;
     req := req';
     ResponseWriter := resp;
     route := None;
     params := None;
     callArgs := None;
     matched := false;
     stage := 0;
     action := Nil;
     Result := Nil;
     log := log c |}.

Definition Req (c : t) : Request.t := req c.

(** *** [Body] *)

Definition Body : M (option (list byte) * option string) :=
  fun c =>
    let '(body, err, rd) := ReadAll (Request.Body (req c)) in
    let c := with_req (Request.with_Body rd (req c)) c in
    match err with
    | Some e => Ok (None, Some e) c
    | None =>
        let c := with_req (Request.with_Body (Close (Request.Body (req c))) (req c)) c in
        let c := with_req (Request.with_Body (NopCloser_NewBuffer body) (req c)) c in
        Ok (Some body, None) c
    end.

(** *** [newAction] and the accessors that trigger it *)

Section Resolution.

(** [removeStick] is declared outside [context.go]. *)
Variable removeStick : string -> string.

Definition newAction : M unit :=
  fun c =>
    if negb (matched c) then
      let reqPath := removeStick (Request.URL_Path (Req c)) in
      let '(r, p) := Tango.Match (tan c) reqPath (Request.Method (Req c)) in
      let c := with_params p (with_route r (emit (EvMatch reqPath (Request.Method (Req c))) c)) in
      match r with
      | Some rt =>
          let vc := Route.newAction rt in
          let c := with_action (Interface vc) (emit EvNewAction c) in
          match Route.routeType rt with
          | StructPtrRoute =>
              Ok tt (with_matched true (with_callArgs (Some [Elem vc]) c))
          | StructRoute =>
              Ok tt (with_matched true (with_callArgs (Some [vc]) c))
          | FuncRoute =>
              Ok tt (with_matched true (with_callArgs (Some []) c))
          | FuncHttpRoute =>
              Ok tt (with_matched true
                       (with_callArgs (Some [WriterV (rw_addr (ResponseWriter c));
                                             RequestV (Request.addr (Req c))]) c))
          | FuncReqRoute =>
              Ok tt (with_matched true
                       (with_callArgs (Some [RequestV (Request.addr (Req c))]) c))
          | FuncResponseRoute =>
              Ok tt (with_matched true
                       (with_callArgs (Some [WriterV (rw_addr (ResponseWriter c))]) c))
          | FuncCtxRoute =>
              Ok tt (with_matched true (with_callArgs (Some [ContextV]) c))
          | OtherRouteType _ =>
              Panicked "routeType error" c
          end
      | None => Ok tt (with_matched true c)
      end
    else Ok tt c.

Definition Route : M (option Route.t) :=
  newAction ;;; c <- get ;; ret (route c).

Definition Params : M Params :=
  newAction ;;; c <- get ;; ret (params c).

Definition Action : M Value :=
  newAction ;;; c <- get ;; ret (action c).

(** *** The chain: [Next], [execute], [invoke], [Abort], [HandleError] *)

(** One call of a handler's body on the context. *)
Definition doOp (Next HandleError Unauthorized : M unit)
    (Abort : Z -> string -> M unit) (NotFound : list string -> M unit)
    (o : op) : M unit :=
  match o with
  | CallNext => Next
  | CallAbort status body => Abort status body
  | CallNotFound message => NotFound message
  | CallUnauthorized => Unauthorized
  | CallHandleError => HandleError
  | CallRoute => Route ;;; ret tt
  | CallParams => Params ;;; ret tt
  | CallAction => Action ;;; ret tt
  | CallBody => Body ;;; ret tt
  | SetResult v => modify (with_Result v)
  | CallWrite data => modify (fun c => with_ResponseWriter (Write data (ResponseWriter c)) c)
  | GoPanic msg => panic msg
  end.

(** Runs a handler's body; the values it returns are the result. *)
Fixpoint run (step : op -> M unit) (p : prog) : M (list Value) :=
  match p with
  | Return vs => ret vs
  | Do o k => step o ;;; run step k
  | Branch cond yes no =>
      fun c => if cond (view c) then run step yes c else run step no c
  end.

(** The actual arguments of a callable stored in [route.raw]. *)
Definition nil_args (a : option (list Value)) : list Value :=
  match a with
  | Some l => l
  | None => []
  end.

Fixpoint invoke (fuel : nat) : M unit :=
  match fuel with
  | O => fun c => OutOfFuel c
  | S n =>
      fun c =>
        if stage c =? 0 then
          if idx c <? len (Tango.handlers (tan c)) then
            match index (Tango.handlers (tan c)) (idx c) with
            | Some h => (Handle n h ;;; ret tt) (emit (EvGlobal (idx c)) c)
            | None => Panicked "index out of range" c
            end
          else execute n c
        else if stage c =? 1 then
          match route c with
          | None => Panicked "nil pointer dereference" c
          | Some rt =>
              if idx c <? len (Route.handlers rt) then
                match index (Route.handlers rt) (idx c) with
                | Some h => (Handle n h ;;; ret tt) (emit (EvLocal (idx c)) c)
                | None => Panicked "index out of range" c
                end
              else execute n c
          end
        else Ok tt c
  end

with execute (fuel : nat) : M unit :=
  match fuel with
  | O => fun c => OutOfFuel c
  | S n =>
      newAction ;;;
      fun c =>
        if negb (is_nil (action c)) then
          match route c with
          | None => Panicked "nil pointer dereference" c
          | Some rt =>
              if (len (Route.handlers rt) >? 0) && (stage c =? 0) then
                invoke n (with_stage 1 (with_idx 0 (emit (EvStage (idx c)) c)))
              else
                (rets <-
                   match Route.raw rt with
                   | RawCtx fn =>
                       fun c => (Handle n fn ;;; ret [])
                                  (emit (EvCall Direct [ContextV]) c)
                   | RawReqResp fn =>
                       fun c =>
                         let c := emit (EvCall Direct
                                          [RequestV (Request.addr (req c));
                                           WriterV (rw_addr (ResponseWriter c))]) c in
                         let '(r, w) := fn (req c) (ResponseWriter c) in
                         Ok [] (with_ResponseWriter w (with_req r c))
                   | RawFunc =>
                       fun c => Ok [] (emit (EvCall Direct []) c)
                   | RawReq fn =>
                       fun c =>
                         let c := emit (EvCall Direct [RequestV (Request.addr (req c))]) c in
                         Ok [] (with_req (fn (req c)) c)
                   | RawResp fn =>
                       fun c =>
                         let c := emit (EvCall Direct
                                          [WriterV (rw_addr (ResponseWriter c))]) c in
                         Ok [] (with_ResponseWriter (fn (ResponseWriter c)) c)
                   | RawOther _ =>
                       fun c => Handle n (Route.method rt (nil_args (callArgs c)))
                                  (emit (EvCall Reflective (nil_args (callArgs c))) c)
                   end ;;
                 match rets with
                 | [r0] => modify (with_Result (Interface r0))
                 | [r0; r1] =>
                     match as_int (Interface r0) with
                     | Some code =>
                         modify (with_Result (StatusResultPtr code (Interface r1)))
                     | None => ret tt
                     end
                 | _ => ret tt
                 end) c
          end
        else
          if negb (Written (ResponseWriter c)) then NotFound n [] c
          else Ok tt c
  end

with Next (fuel : nat) : M unit :=
  match fuel with
  | O => fun c => OutOfFuel c
  | S n => fun c => invoke n (with_idx (int_add (idx c) 1) c)
  end

with Handle (fuel : nat) (h : prog) : M (list Value) :=
  match fuel with
  | O => fun c => OutOfFuel c
  | S n => run (doOp (Next n) (HandleError n) (Unauthorized n) (Abort n) (NotFound n)) h
  end

with HandleError (fuel : nat) : M unit :=
  match fuel with
  | O => fun c => OutOfFuel c
  | S n =>
      fun c => (Handle n (Tango.ErrHandler (tan c)) ;;; ret tt) (emit (EvErr (Result c)) c)
  end

with Unauthorized (fuel : nat) : M unit :=
  match fuel with
  | O => fun c => OutOfFuel c
  | S n => Abort n StatusUnauthorized (StatusText StatusUnauthorized)
  end

with NotFound (fuel : nat) (message : list string) : M unit :=
  match fuel with
  | O => fun c => OutOfFuel c
  | S n =>
      match message with
      | [] => Abort n StatusNotFound (StatusText StatusNotFound)
      | m0 :: _ => Abort n StatusNotFound m0
      end
  end

with Abort (fuel : nat) (status : Z) (body : string) : M unit :=
  match fuel with
  | O => fun c => OutOfFuel c
  | S n => fun c => HandleError n (with_Result (tango.Abort status body) c)
  end.

(** The middleware [Contexts()]: it resolves the action, hands the context
    to an action that asks for it (which leaves the context as it is), and
    goes on with the chain. *)
Definition Contexts : prog := Do CallAction (Do CallNext (Return [])).

End Resolution.

(** *** [IsAjax], [IP] *)

Definition IsAjax (c : t) : bool :=
  String.eqb (Header_Get (Request.Header (Req c)) "X-Requested-With") "XMLHttpRequest".

Definition IP (c : t) : string :=
  let proxy :=
    let ips := Header_Get (Request.Header (Req c)) "X-Forwarded-For" in
    if negb (String.eqb ips EmptyString) then Split ips ","%char else [] in
  if (len proxy >? 0) && negb (String.eqb (hd EmptyString proxy) EmptyString)
  then hd EmptyString proxy
  else
    let ip := Split (Request.RemoteAddr (Req c)) ":"%char in
    if (len ip >? 0) && negb (String.eqb (hd EmptyString ip) "[")
    then hd EmptyString ip
    else "127.0.0.1".

(** *** [DecodeJson], [DecodeXml] *)

Section Decoders.

(** [json.Unmarshal] and [xml.Unmarshal]: what the target holds afterwards,
    and the error. *)
Variable json_Unmarshal : list byte -> Value -> Value * option string.
Variable xml_Unmarshal : list byte -> Value -> Value * option string.

Definition nil_bytes (b : option (list byte)) : list byte :=
  match b with
  | Some l => l
  | None => []
  end.

Definition DecodeJson (obj : Value) : M (Value * option string) :=
  r <- Body ;;
  match snd r with
  | Some err => ret (obj, Some err)
  | None => ret (json_Unmarshal (nil_bytes (fst r)) obj)
  end.

Definition DecodeXml (obj : Value) : M (Value * option string) :=
  r <- Body ;;
  match snd r with
  | Some err => ret (obj, Some err)
  | None => ret (xml_Unmarshal (nil_bytes (fst r)) obj)
  end.

End Decoders.

End Context.

Notation "x <- m ;; k" := (Context.bind m (fun x => k))
  (at level 61, m at next level, right associativity).
Notation "m ;;; k" := (Context.bind m (fun _ => k))
  (at level 61, right associativity).

(** * A concrete dispatcher, used to run the definitions *)

Module Sample.

(** Strips the trailing slashes of a path, keeping the root. *)
Fixpoint removeStick (uri : string) : string :=
  match uri with
  | EmptyString => "/"
  | String a rest =>
      match removeStick rest with
      | String "/"%char EmptyString =>
          if Ascii.eqb a "/"%char then "/" else String a EmptyString
      | r => String a r
      end
  end.

Definition actionV : Value := Opaque "*main.Action" 7.

Definition mkRoute (ty : RouteType) (hs : list prog) (r : Raw)
    (m : list Value -> prog) : Route.t :=
  {| Route.routeType := ty; Route.handlers := hs; Route.raw := r;
     Route.method := m; Route.newAction := actionV |}.

Definition noMethod : list Value -> prog := fun _ => Return [].

(** A dispatcher that knows one route, at [/foo]. *)
Definition dispatcher (globals : list prog) (err : prog) (rt : Route.t) : Tango.t :=
  {| Tango.handlers := globals;
     Tango.ErrHandler := err;
     Tango.Match := fun path _ =>
       if String.eqb path "/foo" then (Some rt, Some [("id", "1")])
       else (None, None) |}.

Definition request (path : string) (body : list byte) : Request.t :=
  {| Request.addr := 1; Request.Method := "GET"; Request.URL_Path := path;
     Request.Header := []; Request.RemoteAddr := "10.0.0.1:80";
     Request.Body := {| pending := body; fault := None; closed := false; nop := false |} |}.

Definition writer : responseWriter :=
  {| rw_addr := 2; Written := false; sent := [] |}.

(** A context as the server loop hands it to [invoke]. *)
Definition fresh (tn : Tango.t) (path : string) : Context.t :=
  Context.reset (request path [x68; x69]) writer
    {| Context.tan := tn; Context.Logger := 0; Context.idx := 5;
       Context.req := request "/old" []; Context.ResponseWriter := writer;
       Context.route := None; Context.params := Some [("k", "v")];
       Context.callArgs := Some [ContextV]; Context.matched := true;
       Context.stage := 1; Context.action := actionV;
       Context.Result := StringV "stale"; Context.log := [] |}.

(** An error handler that renders the abort into the response. *)
Definition renderError : prog := Do (CallWrite [x65; x72; x72]) (Return []).

End Sample.

(** * Vocabulary of the properties *)

Unset Implicit Arguments.

(** The request path and method [newAction] hands to the matcher. *)
Definition lookup (removeStick : string -> string) (c : Context.t)
  : option Route.t * Params :=
  Tango.Match (Context.tan c)
    (removeStick (Request.URL_Path (Context.Req c)))
    (Request.Method (Context.Req c)).

Definition supported (ty : RouteType) : bool :=
  match ty with
  | OtherRouteType _ => false
  | _ => true
  end.

Ltac break_newAction :=
  unfold Context.newAction;
  repeat match goal with
         | H : Context.matched ?c = _ |- _ => rewrite H; simpl
         | H : lookup ?rs ?c = _ |- _ => unfold lookup in H; rewrite H; simpl
         | H : Route.routeType ?rt = _ |- _ => rewrite H; simpl
         end.

(** The call of the action by the type switch of [execute]: the values it
    returns to the result capture. *)
Definition callAction (rs : string -> string) (n : nat) (rt : Route.t)
  : Context.M (list Value) :=
  match Route.raw rt with
  | RawCtx fn =>
      fun c => (Context.Handle rs n fn ;;; Context.ret [])
                 (Context.emit (EvCall Direct [ContextV]) c)
  | RawReqResp fn =>
      fun c =>
        let c := Context.emit
                   (EvCall Direct
                      [RequestV (Request.addr (Context.req c));
                       WriterV (rw_addr (Context.ResponseWriter c))]) c in
        let '(r, w) := fn (Context.req c) (Context.ResponseWriter c) in
        Context.Ok [] (Context.with_ResponseWriter w (Context.with_req r c))
  | RawFunc =>
      fun c => Context.Ok [] (Context.emit (EvCall Direct []) c)
  | RawReq fn =>
      fun c =>
        let c := Context.emit
                   (EvCall Direct [RequestV (Request.addr (Context.req c))]) c in
        Context.Ok [] (Context.with_req (fn (Context.req c)) c)
  | RawResp fn =>
      fun c =>
        let c := Context.emit
                   (EvCall Direct [WriterV (rw_addr (Context.ResponseWriter c))]) c in
        Context.Ok [] (Context.with_ResponseWriter (fn (Context.ResponseWriter c)) c)
  | RawOther _ =>
      fun c => Context.Handle rs n
                 (Route.method rt (Context.nil_args (Context.callArgs c)))
                 (Context.emit
                    (EvCall Reflective (Context.nil_args (Context.callArgs c))) c)
  end.

(** The result capture that follows the call. *)
Definition capture (rets : list Value) : Context.M unit :=
  match rets with
  | [r0] => Context.modify (Context.with_Result (Interface r0))
  | [r0; r1] =>
      match as_int (Interface r0) with
      | Some code =>
          Context.modify (Context.with_Result (StatusResultPtr code (Interface r1)))
      | None => Context.ret tt
      end
  | _ => Context.ret tt
  end.

(** [execute] after its call of [newAction]. *)
Definition execute_resolved (rs : string -> string) (n : nat) : Context.M unit :=
  fun c =>
    if negb (is_nil (Context.action c)) then
      match Context.route c with
      | None => Context.Panicked "nil pointer dereference" c
      | Some rt =>
          if (len (Route.handlers rt) >? 0) && (Context.stage c =? 0) then
            Context.invoke rs n
              (Context.with_stage 1
                 (Context.with_idx 0 (Context.emit (EvStage (Context.idx c)) c)))
          else (rets <- callAction rs n rt ;; capture rets) c
      end
    else if negb (Written (Context.ResponseWriter c)) then Context.NotFound rs n [] c
    else Context.Ok tt c.

(** What the first resolution of a request stores, read off the matcher's
    answer. *)
Definition resolved_from (rs : string -> string) (c c1 : Context.t) : Prop :=
  let reqPath := rs (Request.URL_Path (Context.Req c)) in
  let ev := EvMatch reqPath (Request.Method (Context.Req c)) in
  Context.route c1 = fst (lookup rs c)
  /\ Context.params c1 = snd (lookup rs c)
  /\ match fst (lookup rs c) with
     | None =>
         Context.action c1 = Context.action c
         /\ Context.callArgs c1 = Context.callArgs c
         /\ Context.log c1 = Context.log c ++ [ev]
     | Some rt =>
         Context.action c1 = Route.newAction rt
         /\ (exists args, Context.callArgs c1 = Some args)
         /\ Context.log c1 = Context.log c ++ [ev; EvNewAction]
     end.

(** The calls a handler body can make when it runs with budget [n]. *)
Definition calls (rs : string -> string) (n : nat) : op -> Context.M unit :=
  Context.doOp rs (Context.Next rs n) (Context.HandleError rs n)
    (Context.Unauthorized rs n) (Context.Abort rs n) (Context.NotFound rs n).

(** [execute] gets past resolution and the stage switch and calls the action
    of route [rt], in context [c1]. *)
Definition reaches_final_invoker (rs : string -> string)
    (c c1 : Context.t) (rt : Route.t) : Prop :=
  Context.newAction rs c = Context.Ok tt c1
  /\ is_nil (Context.action c1) = false
  /\ Context.route c1 = Some rt
  /\ (len (Route.handlers rt) >? 0) && (Context.stage c1 =? 0) = false.

(** A handler that only renders: it reads the request body and writes the
    response, and calls nothing else on the context. *)
Fixpoint renders (p : prog) : bool :=
  match p with
  | Return _ => true
  | Do (CallWrite _) k => renders k
  | Do CallBody k => renders k
  | Do _ _ => false
  | Branch _ yes no => renders yes && renders no
  end.

(** [c'] is [c] up to the request and the response writer. *)
Definition same_but_io (c c' : Context.t) : Prop :=
  Context.with_req (Context.req c')
    (Context.with_ResponseWriter (Context.ResponseWriter c') c) = c'.

(** Number of times the error handler was called. *)
Fixpoint errors_handled (l : list event) : nat :=
  match l with
  | [] => O
  | EvErr _ :: l' => S (errors_handled l')
  | _ :: l' => errors_handled l'
  end.

(** No route answers the request: either resolution has run and found no
    action, or it has not run yet and the matcher knows no route for the
    path. *)
Definition no_route (rs : string -> string) (c : Context.t) : Prop :=
  Context.action c = Nil
  /\ (Context.matched c = true \/ fst (lookup rs c) = None).

(** A middleware that, on every path, calls [Abort(status, body)] once,
    never calls [Next], and otherwise only renders. *)
Fixpoint aborts_once (status : Z) (body : string) (p : prog) : bool :=
  match p with
  | Return _ => false
  | Do (CallAbort s b) k => (s =? status) && String.eqb b body && renders k
  | Do (CallWrite _) k => aborts_once status body k
  | Do CallBody k => aborts_once status body k
  | Do _ _ => false
  | Branch _ yes no => aborts_once status body yes && aborts_once status body no
  end.

(** What such a middleware leaves of the context it was given. *)
Definition aborted (status : Z) (body : string) (c c' : Context.t) : Prop :=
  Context.log c' = Context.log c ++ [EvErr (tango.Abort status body)]
  /\ Context.Result c' = tango.Abort status body
  /\ Context.idx c' = Context.idx c
  /\ Context.stage c' = Context.stage c
  /\ Context.tan c' = Context.tan c.

(** The log of a request is read as a two-phase protocol: global handlers,
    then at most one stage switch, taken with the cursor at or past the end
    of the global handlers, then route handlers.  [Some b] is a legal prefix,
    [b] telling whether the switch was seen; [None] is a violation. *)
Definition phase_step (globals : Z) (s : option bool) (e : event) : option bool :=
  match s with
  | None => None
  | Some switched =>
      match e with
      | EvGlobal _ => if switched then None else Some false
      | EvLocal _ => if switched then Some true else None
      | EvStage k =>
          if switched then None
          else if globals <=? k then Some true else None
      | _ => Some switched
      end
  end.

Definition phase (globals : Z) (l : list event) : option bool :=
  fold_left (phase_step globals) l (Some false).

(** Number of times [execute] set [idx = 0; stage = 1]. *)
Fixpoint stage_switches (l : list event) : nat :=
  match l with
  | [] => O
  | EvStage _ :: l' => S (stage_switches l')
  | _ :: l' => stage_switches l'
  end.

(** The context is in a legal state of the chain: its stage is 0 or 1 and
    agrees with a log that follows the protocol. *)
Definition chain_ok (c : Context.t) : Prop :=
  phase (len (Tango.handlers (Context.tan c))) (Context.log c)
  = Some (Context.stage c =? 1)
  /\ (Context.stage c = 0 \/ Context.stage c = 1).

(** [c'] is a later state of the same request than [c]: still legal, same
    dispatcher, stage not lower. *)
Definition later (c c' : Context.t) : Prop :=
  chain_ok c'
  /\ Context.tan c' = Context.tan c
  /\ Context.stage c <= Context.stage c'.

(** Events that belong to neither stage. *)
Definition neutral (e : event) : bool :=
  match e with
  | EvGlobal _ | EvLocal _ | EvStage _ => false
  | _ => true
  end.

(** A computation keeps the chain legal, in whatever outcome it ends. *)
Definition keeps {A : Type} (m : Context.M A) : Prop :=
  forall c, chain_ok c -> later c (Context.final (m c)).

(** What the induction on the call budget carries for the methods of the
    chain.  [execute] is entered from [invoke] only, at stage 0 with the
    cursor past the global handlers or at stage 1. *)
Definition chain_keeps (rs : string -> string) (n : nat) : Prop :=
  keeps (Context.invoke rs n)
  /\ (forall c,
        chain_ok c ->
        (Context.stage c = 0 -> len (Tango.handlers (Context.tan c)) <= Context.idx c) ->
        later c (Context.final (Context.execute rs n c)))
  /\ keeps (Context.Next rs n)
  /\ (forall h, keeps (Context.Handle rs n h))
  /\ keeps (Context.HandleError rs n)
  /\ keeps (Context.Unauthorized rs n)
  /\ (forall message, keeps (Context.NotFound rs n message))
  /\ (forall status body, keeps (Context.Abort rs n status body)).

(** What a legal later state says in terms of the stage and the log: the
    stage is 0 or 1 and not lower than before; [execute] has reset the cursor
    and switched the stage once if the stage is 1 and never if it is 0; a
    route handler was called only after that switch, which found the cursor at
    or past the end of the global handlers; a global handler was called only
    before it. *)
Definition request_protocol (c c' : Context.t) : Prop :=
  (Context.stage c' = 0 \/ Context.stage c' = 1)
  /\ Context.stage c <= Context.stage c'
  /\ stage_switches (Context.log c')
     = (if Context.stage c' =? 1 then 1%nat else 0%nat)
  /\ (forall l1 i l2,
        Context.log c' = l1 ++ EvLocal i :: l2 ->
        exists l0 k l0',
          l1 = l0 ++ EvStage k :: l0'
          /\ len (Tango.handlers (Context.tan c)) <= k)
  /\ (forall l1 i l2,
        Context.log c' = l1 ++ EvGlobal i :: l2 -> stage_switches l1 = 0%nat).

(** Whether the byte [a] occurs in [s]. *)
Fixpoint has_byte (a : ascii) (s : string) : bool :=
  match s with
  | EmptyString => false
  | String b rest => Ascii.eqb b a || has_byte a rest
  end.

(** The header [X-Forwarded-For] of the request, as [IP] reads it. *)
Definition forwarded_for (c : Context.t) : string :=
  Header_Get (Request.Header (Context.Req c)) "X-Forwarded-For".

(** The arguments [newAction] prepares for a route of kind [ty], for the
    action value [vc], the response writer [rw] and the request [rq]. *)
Definition prepared_args (ty : RouteType) (vc : Value)
    (rw : responseWriter) (rq : Request.t) : list Value :=
  match ty with
  | StructPtrRoute => [Elem vc]
  | StructRoute => [vc]
  | FuncRoute => []
  | FuncHttpRoute => [WriterV (rw_addr rw); RequestV (Request.addr rq)]
  | FuncReqRoute => [RequestV (Request.addr rq)]
  | FuncResponseRoute => [WriterV (rw_addr rw)]
  | FuncCtxRoute => [ContextV]
  | OtherRouteType _ => []
  end.

(** The resolution cache of a context. *)
Definition cache (c : Context.t)
  : bool * option Route.t * Params * Value * option (list Value) :=
  (Context.matched c, Context.route c, Context.params c,
   Context.action c, Context.callArgs c).

(** Once resolved, always resolved the same way. *)
Definition cache_frozen (c c' : Context.t) : Prop :=
  Context.matched c = true -> cache c' = cache c.

(** The context still belongs to the same dispatcher and logger, and its log
    has only grown. *)
Definition same_owner (c c' : Context.t) : Prop :=
  Context.tan c' = Context.tan c
  /\ Context.Logger c' = Context.Logger c
  /\ exists l, Context.log c' = Context.log c ++ l.

(** A relation between a context and a later one that every elementary
    update of the chain respects. *)
Record respected (rs : string -> string)
    (R : Context.t -> Context.t -> Prop) : Prop := {
  resp_refl : forall c, R c c;
  resp_trans : forall c1 c2 c3, R c1 c2 -> R c2 c3 -> R c1 c3;
  resp_emit : forall e c, R c (Context.emit e c);
  resp_idx : forall v c, R c (Context.with_idx v c);
  resp_stage : forall v c, R c (Context.with_stage v c);
  resp_Result : forall v c, R c (Context.with_Result v c);
  resp_req : forall v c, R c (Context.with_req v c);
  resp_writer : forall v c, R c (Context.with_ResponseWriter v c);
  resp_newAction : forall c, R c (Context.final (Context.newAction rs c))
}.

(** Every method of the chain relates the context it is given to the one it
    ends in. *)
Definition chain_respects (rs : string -> string)
    (R : Context.t -> Context.t -> Prop) (n : nat) : Prop :=
  (forall c, R c (Context.final (Context.invoke rs n c)))
  /\ (forall c, R c (Context.final (Context.execute rs n c)))
  /\ (forall c, R c (Context.final (Context.Next rs n c)))
  /\ (forall h c, R c (Context.final (Context.Handle rs n h c)))
  /\ (forall c, R c (Context.final (Context.HandleError rs n c)))
  /\ (forall c, R c (Context.final (Context.Unauthorized rs n c)))
  /\ (forall message c, R c (Context.final (Context.NotFound rs n message c)))
  /\ (forall status body c, R c (Context.final (Context.Abort rs n status body c))).

(** The middleware that does nothing but go on with the chain. *)
Definition pass : prog := Do CallNext (Return []).

(** The handler [invoke] would call in context [c], with the event logged
    for the call: the global handler under the cursor at stage 0, the route
    handler under the cursor at stage 1. *)
Definition current_handler (c : Context.t) : option (event * prog) :=
  if Context.stage c =? 0 then
    match index (Tango.handlers (Context.tan c)) (Context.idx c) with
    | Some h => Some (EvGlobal (Context.idx c), h)
    | None => None
    end
  else if Context.stage c =? 1 then
    match Context.route c with
    | Some rt =>
        match index (Route.handlers rt) (Context.idx c) with
        | Some h => Some (EvLocal (Context.idx c), h)
        | None => None
        end
    | None => None
    end
  else None.

(** The integers [i], [i + 1], ..., [i + k - 1]. *)
Fixpoint zseq (i : Z) (k : nat) : list Z :=
  match k with
  | O => []
  | S k' => i :: zseq (i + 1) k'
  end.

(** The context after [k] links in a row have each logged their call and
    called [Next]. *)
Fixpoint walk (mk : Z -> event) (k : nat) (c : Context.t) : Context.t :=
  match k with
  | O => c
  | S k' =>
      walk mk k'
        (Context.with_idx (int_add (Context.idx c) 1)
           (Context.emit (mk (Context.idx c)) c))
  end.

(** The context [newAction] leaves when the request matches [rt]. *)
Definition resolved_ctx (rs : string -> string) (rt : Route.t) (p : Params)
    (c : Context.t) : Context.t :=
  Context.with_matched true
    (Context.with_callArgs
       (Some (prepared_args (Route.routeType rt) (Route.newAction rt)
                (Context.ResponseWriter c) (Context.req c)))
       (Context.with_action (Route.newAction rt)
          (Context.emit EvNewAction
             (Context.with_params p
                (Context.with_route (Some rt)
                   (Context.emit
                      (EvMatch (rs (Request.URL_Path (Context.Req c)))
                               (Request.Method (Context.Req c))) c)))))).

(** The context in which the action is called when [g] global and [l] route
    handlers have all passed the request on. *)
Definition after_middleware (rs : string -> string) (rt : Route.t) (p : Params)
    (g l : nat) (c : Context.t) : Context.t :=
  let c1 := resolved_ctx rs rt p (walk EvGlobal g c) in
  match l with
  | O => c1
  | S _ =>
      walk EvLocal l
        (Context.with_stage 1
           (Context.with_idx 0 (Context.emit (EvStage (Context.idx c1)) c1)))
  end.

(** The calls logged up to that point. *)
Definition middleware_log (rs : string -> string) (g l : nat) (c : Context.t)
  : list event :=
  map EvGlobal (zseq 0 g)
  ++ [EvMatch (rs (Request.URL_Path (Context.Req c))) (Request.Method (Context.Req c));
      EvNewAction]
  ++ match l with
     | O => []
     | S _ => EvStage (Z.of_nat g) :: map EvLocal (zseq 0 l)
     end.

(** The budget the middleware uses up. *)
Definition middleware_budget (g l : nat) : nat :=
  match l with
  | O => 3 * g + 2
  | S _ => 3 * g + 2 + (3 * l + 2)
  end.

(** Whether a computation came back normally. *)
Definition returned {A : Type} (r : Context.Res A) : bool :=
  match r with
  | Context.Ok _ _ => true
  | _ => false
  end.

(** The request is resolved to route [rt], whose action is a function of the
    context that starts by calling [Next], and the chain is at the final
    invoker: at stage 0 of a route without handlers, or at stage 1. *)
Definition action_calls_Next (rt : Route.t) (k : prog) (c : Context.t) : Prop :=
  Context.matched c = true
  /\ is_nil (Context.action c) = false
  /\ Context.route c = Some rt
  /\ Route.raw rt = RawCtx (Do CallNext k)
  /\ ((Context.stage c = 0 /\ Route.handlers rt = []) \/ Context.stage c = 1).

(** The number of handlers of the stage the context is in. *)
Definition stage_len (rt : Route.t) (c : Context.t) : Z :=
  if Context.stage c =? 0 then len (Tango.handlers (Context.tan c))
  else len (Route.handlers rt).

(** The route is there whenever [invoke] or [execute] dereference it: when
    the context has an action, and at stage 1. *)
Definition route_present (c : Context.t) : Prop :=
  (is_nil (Context.action c) = false -> Context.route c <> None)
  /\ (Context.stage c = 1 -> Context.route c <> None).

(** A context as [reset] and the chain make it: besides, an unresolved
    request has no action yet and is not at stage 1. *)
Definition well_resolved (c : Context.t) : Prop :=
  route_present c
  /\ (Context.matched c = false ->
      is_nil (Context.action c) = true /\ Context.stage c <> 1).

(** A computation started in such a context returns in such a context, and
    stops, if it panics or runs out of budget, with the route still there
    when needed. *)
Definition sound {A : Type} (m : Context.M A) : Prop :=
  forall c,
    well_resolved c ->
    match m c with
    | Context.Ok _ c' => well_resolved c'
    | Context.Panicked _ c' => route_present c'
    | Context.OutOfFuel c' => route_present c'
    end.

Definition chain_sound (rs : string -> string) (n : nat) : Prop :=
  sound (Context.invoke rs n)
  /\ sound (Context.execute rs n)
  /\ sound (Context.Next rs n)
  /\ (forall h, sound (Context.Handle rs n h))
  /\ sound (Context.HandleError rs n)
  /\ sound (Context.Unauthorized rs n)
  /\ (forall message, sound (Context.NotFound rs n message))
  /\ (forall status body, sound (Context.Abort rs n status body)).

(** * Properties *)

(** ** [reset] *)

(** C9: [reset(req, resp)] zeroes the cursor, clears the resolution cache and
    the result, installs the new request and response writer, and keeps the
    dispatcher reference and the logger. *)
Theorem reset_clears_request_state :
  forall (rq : Request.t) (rw : responseWriter) (c : Context.t),
    let c' := Context.reset rq rw c in
    Context.idx c' = 0 /\ Context.stage c' = 0
    /\ Context.route c' = None /\ Context.params c' = None
    /\ Context.callArgs c' = None /\ Context.matched c' = false
    /\ Context.action c' = Nil /\ Context.Result c' = Nil
    /\ Context.req c' = rq /\ Context.ResponseWriter c' = rw
    /\ Context.tan c' = Context.tan c /\ Context.Logger c' = Context.Logger c
    /\ Context.log c' = Context.log c.
Proof.
  intros rq rw c c'. subst c'. unfold Context.reset. simpl.
  repeat split.
Qed.

(** ** [Body] *)

Lemma ReadAll_fresh_buffer :
  forall body : list byte,
    ReadAll (NopCloser_NewBuffer body)
    = (body, None, drained (NopCloser_NewBuffer body)).
Proof. intro body. reflexivity. Qed.

Lemma Body_success_inv :
  forall (c c1 : Context.t) (body : list byte),
    Context.Body c = Context.Ok (Some body, None) c1 ->
    body = pending (Request.Body (Context.req c))
    /\ closed (Request.Body (Context.req c)) = false
    /\ fault (Request.Body (Context.req c)) = None
    /\ c1 = Context.with_req
              (Request.with_Body (NopCloser_NewBuffer body) (Context.req c)) c.
Proof.
  intros c c1 body. unfold Context.Body, ReadAll.
  destruct (closed (Request.Body (Context.req c))) eqn:Hcl; simpl.
  - discriminate.
  - destruct (fault (Request.Body (Context.req c))) eqn:Hf; simpl.
    + discriminate.
    + intro H. inversion H; subst. repeat split.
Qed.

(** C10: after a successful [Body()], the request's body reader is a fresh
    buffer holding the bytes returned, so reading the body again, through
    [Body()] or directly, yields the same bytes. *)
Theorem Body_can_be_read_again :
  forall (c c1 : Context.t) (body : list byte),
    Context.Body c = Context.Ok (Some body, None) c1 ->
    body = pending (Request.Body (Context.req c))
    /\ Request.Body (Context.req c1) = NopCloser_NewBuffer body
    /\ fst (fst (ReadAll (Request.Body (Context.req c1)))) = body
    /\ Context.Body c1 = Context.Ok (Some body, None) c1.
Proof.
  intros c c1 body H.
  destruct (Body_success_inv c c1 body H) as (Hb & _ & _ & Hc1).
  split; [exact Hb|].
  subst c1. simpl. repeat split.
Qed.

Lemma Body_can_be_read_again_witness :
  let c := Sample.fresh (Sample.dispatcher [] Sample.renderError
                           (Sample.mkRoute FuncRoute [] RawFunc Sample.noMethod)) "/foo" in
  let c1 := Context.final (Context.Body c) in
  Context.Body c = Context.Ok (Some [x68; x69], None) c1
  /\ Context.Body c1 = Context.Ok (Some [x68; x69], None) c1.
Proof.
  intros c c1.
  assert (H : Context.Body c = Context.Ok (Some [x68; x69], None) c1) by reflexivity.
  split; [exact H|].
  exact (proj2 (proj2 (proj2 (Body_can_be_read_again c c1 _ H)))).
Defined.

(** ** Resolution: [newAction] *)

Lemma newAction_matched_noop :
  forall rs c, Context.matched c = true -> Context.newAction rs c = Context.Ok tt c.
Proof. intros rs c H. break_newAction. reflexivity. Qed.

Lemma newAction_unmatched :
  forall rs c p,
    Context.matched c = false ->
    lookup rs c = (None, p) ->
    Context.newAction rs c
    = Context.Ok tt
        (Context.with_matched true
           (Context.with_params p
              (Context.with_route None
                 (Context.emit
                    (EvMatch (rs (Request.URL_Path (Context.Req c)))
                             (Request.Method (Context.Req c))) c)))).
Proof. intros rs c p Hm Hl. break_newAction. reflexivity. Qed.

Lemma newAction_Ok_matched :
  forall rs c c1,
    Context.newAction rs c = Context.Ok tt c1 -> Context.matched c1 = true.
Proof.
  intros rs c c1. unfold Context.newAction.
  destruct (Context.matched c) eqn:Hm; simpl.
  - intro H. inversion H; subst. exact Hm.
  - destruct (Tango.Match _ _ _) as [[rt|] p]; simpl.
    + destruct (Route.routeType rt); intro H; inversion H; reflexivity.
    + intro H. inversion H. reflexivity.
Qed.

(** C8: a matched route whose [routeType] is none of the seven kinds makes
    resolution panic, through every entry that triggers it; each of the seven
    kinds resolves without a panic. *)
Theorem newAction_panics_iff_unsupported :
  forall rs c rt p,
    Context.matched c = false ->
    lookup rs c = (Some rt, p) ->
    if supported (Route.routeType rt) then
      exists c1, Context.newAction rs c = Context.Ok tt c1
    else
      exists c1,
        Context.newAction rs c = Context.Panicked "routeType error" c1
        /\ Context.Route rs c = Context.Panicked "routeType error" c1
        /\ Context.Params rs c = Context.Panicked "routeType error" c1
        /\ Context.Action rs c = Context.Panicked "routeType error" c1
        /\ (forall n, Context.execute rs (S n) c
                      = Context.Panicked "routeType error" c1)
        /\ Context.matched c1 = false.
Proof.
  intros rs c rt p Hm Hl.
  destruct (Route.routeType rt) eqn:Hty; simpl;
    try (eexists; break_newAction; reflexivity).
  eexists.
  assert (Hn : Context.newAction rs c
               = Context.Panicked "routeType error"
                   (Context.with_action (Interface (Route.newAction rt))
                      (Context.emit EvNewAction
                         (Context.with_params p
                            (Context.with_route (Some rt)
                               (Context.emit
                                  (EvMatch (rs (Request.URL_Path (Context.Req c)))
                                           (Request.Method (Context.Req c))) c)))))).
  { break_newAction. reflexivity. }
  split; [exact Hn|].
  unfold Context.Route, Context.Params, Context.Action.
  split; [unfold Context.bind; rewrite Hn; reflexivity|].
  split; [unfold Context.bind; rewrite Hn; reflexivity|].
  split; [unfold Context.bind; rewrite Hn; reflexivity|].
  split.
  - intro n. simpl. unfold Context.bind. rewrite Hn. reflexivity.
  - simpl. exact Hm.
Qed.

Lemma newAction_panics_iff_unsupported_witness :
  let rt := Sample.mkRoute (OtherRouteType 0) [] RawFunc Sample.noMethod in
  let c := Sample.fresh (Sample.dispatcher [] Sample.renderError rt) "/foo/" in
  exists c1,
    Context.newAction Sample.removeStick c = Context.Panicked "routeType error" c1
    /\ Context.Route Sample.removeStick c = Context.Panicked "routeType error" c1
    /\ Context.Params Sample.removeStick c = Context.Panicked "routeType error" c1
    /\ Context.Action Sample.removeStick c = Context.Panicked "routeType error" c1
    /\ (forall n, Context.execute Sample.removeStick (S n) c
                  = Context.Panicked "routeType error" c1)
    /\ Context.matched c1 = false.
Proof.
  intros rt c.
  exact (newAction_panics_iff_unsupported Sample.removeStick c rt
           (Some [("id", "1")]) eq_refl eq_refl).
Defined.

Lemma accessors_after_newAction :
  forall rs c c1,
    Context.newAction rs c = Context.Ok tt c1 ->
    Context.Route rs c = Context.Ok (Context.route c1) c1
    /\ Context.Params rs c = Context.Ok (Context.params c1) c1
    /\ Context.Action rs c = Context.Ok (Context.action c1) c1.
Proof.
  intros rs c c1 H.
  unfold Context.Route, Context.Params, Context.Action, Context.bind.
  rewrite H. simpl. repeat split.
Qed.

Lemma execute_S :
  forall rs n,
    Context.execute rs (S n) = (Context.newAction rs ;;; execute_resolved rs n).
Proof. intros rs n. reflexivity. Qed.

Lemma execute_after_newAction :
  forall rs n c c1,
    Context.newAction rs c = Context.Ok tt c1 ->
    Context.newAction rs c1 = Context.Ok tt c1 ->
    Context.execute rs (S n) c1 = Context.execute rs (S n) c.
Proof.
  intros rs n c c1 H H1. rewrite execute_S. unfold Context.bind.
  rewrite H, H1. reflexivity.
Qed.

Lemma newAction_first_call :
  forall rs c c1,
    Context.matched c = false ->
    Context.newAction rs c = Context.Ok tt c1 ->
    resolved_from rs c c1.
Proof.
  intros rs c c1 Hm. unfold resolved_from, lookup, Context.newAction.
  rewrite Hm. simpl.
  destruct (Tango.Match _ _ _) as [[rt|] p]; simpl.
  - destruct (Route.routeType rt); intro H; inversion H; subst; simpl;
      rewrite <- app_assoc; simpl; repeat split; eexists; reflexivity.
  - intro H. inversion H; subst. simpl. repeat split.
Qed.



(** ** Unfolding the chain, one call at a time *)

Lemma invoke_S :
  forall rs n c,
    Context.invoke rs (S n) c
    = if Context.stage c =? 0 then
        if Context.idx c <? len (Tango.handlers (Context.tan c)) then
          match index (Tango.handlers (Context.tan c)) (Context.idx c) with
          | Some h => (Context.Handle rs n h ;;; Context.ret tt)
                        (Context.emit (EvGlobal (Context.idx c)) c)
          | None => Context.Panicked "index out of range" c
          end
        else Context.execute rs n c
      else if Context.stage c =? 1 then
        match Context.route c with
        | None => Context.Panicked "nil pointer dereference" c
        | Some rt =>
            if Context.idx c <? len (Route.handlers rt) then
              match index (Route.handlers rt) (Context.idx c) with
              | Some h => (Context.Handle rs n h ;;; Context.ret tt)
                            (Context.emit (EvLocal (Context.idx c)) c)
              | None => Context.Panicked "index out of range" c
              end
            else Context.execute rs n c
        end
      else Context.Ok tt c.
Proof. intros rs n c. reflexivity. Qed.

Lemma Next_S :
  forall rs n c,
    Context.Next rs (S n) c
    = Context.invoke rs n (Context.with_idx (int_add (Context.idx c) 1) c).
Proof. intros rs n c. reflexivity. Qed.

Lemma Handle_S :
  forall rs n h, Context.Handle rs (S n) h = Context.run (calls rs n) h.
Proof. intros rs n h. reflexivity. Qed.

Lemma HandleError_S :
  forall rs n c,
    Context.HandleError rs (S n) c
    = (Context.Handle rs n (Tango.ErrHandler (Context.tan c)) ;;; Context.ret tt)
        (Context.emit (EvErr (Context.Result c)) c).
Proof. intros rs n c. reflexivity. Qed.

Lemma Abort_S :
  forall rs n status body c,
    Context.Abort rs (S n) status body c
    = Context.HandleError rs n (Context.with_Result (tango.Abort status body) c).
Proof. intros rs n status body c. reflexivity. Qed.

Lemma NotFound_S :
  forall rs n message,
    Context.NotFound rs (S n) message
    = match message with
      | [] => Context.Abort rs n StatusNotFound (StatusText StatusNotFound)
      | m0 :: _ => Context.Abort rs n StatusNotFound m0
      end.
Proof. intros rs n message. reflexivity. Qed.

Lemma Unauthorized_S :
  forall rs n,
    Context.Unauthorized rs (S n)
    = Context.Abort rs n StatusUnauthorized (StatusText StatusUnauthorized).
Proof. intros rs n. reflexivity. Qed.

(** ** The final invoker *)

Lemma execute_final_invoker :
  forall rs n c c1 rt,
    reaches_final_invoker rs c c1 rt ->
    Context.execute rs (S n) c = (rets <- callAction rs n rt ;; capture rets) c1.
Proof.
  intros rs n c c1 rt (Hn & Ha & Hr & Hs).
  rewrite execute_S. unfold Context.bind at 1. rewrite Hn.
  unfold execute_resolved. rewrite Ha, Hr, Hs. reflexivity.
Qed.

Lemma with_Result_same :
  forall c, Context.with_Result (Context.Result c) c = c.
Proof. intros []. reflexivity. Qed.

Lemma with_Result_twice :
  forall v w c,
    Context.with_Result v (Context.with_Result w c) = Context.with_Result v c.
Proof. intros v w []. reflexivity. Qed.

(** C4: after a method-style action has been called reflectively and has
    returned [rets] in context [c2], [execute] ends in a context that differs
    from [c2] at most in [Result]: no return value leaves [Result] as it is,
    one return value becomes [Result], two with an [int] first become the
    status result of the pair, and every other shape leaves [Result] as it
    is. *)
Theorem method_action_result_capture :
  forall rs n c c1 rt ty rets c2,
    reaches_final_invoker rs c c1 rt ->
    Route.raw rt = RawOther ty ->
    Context.Handle rs n
      (Route.method rt (Context.nil_args (Context.callArgs c1)))
      (Context.emit (EvCall Reflective (Context.nil_args (Context.callArgs c1))) c1)
    = Context.Ok rets c2 ->
    exists c3,
      Context.execute rs (S n) c = Context.Ok tt c3
      /\ Context.with_Result (Context.Result c2) c3 = c2
      /\ match rets with
         | [] => Context.Result c3 = Context.Result c2
         | [v] => Context.Result c3 = v
         | [r0; v] =>
             match r0 with
             | IntV code => Context.Result c3 = StatusResultPtr code v
             | _ => Context.Result c3 = Context.Result c2
             end
         | _ => Context.Result c3 = Context.Result c2
         end.
Proof.
  intros rs n c c1 rt ty rets c2 Hreach Hraw Hcall.
  assert (Hex : Context.execute rs (S n) c = capture rets c2).
  { rewrite (execute_final_invoker rs n c c1 rt Hreach).
    unfold Context.bind, callAction. rewrite Hraw. cbv beta iota.
    rewrite Hcall. reflexivity. }
  rewrite Hex. clear Hex.
  destruct rets as [|r0 [|r1 [|r2 rest]]]; simpl.
  - exists c2. repeat split. apply with_Result_same.
  - eexists. split; [reflexivity|]. split; [|reflexivity].
    rewrite with_Result_twice. apply with_Result_same.
  - destruct r0; simpl;
      try (exists c2; repeat split; apply with_Result_same).
    eexists. split; [reflexivity|]. split; [|reflexivity].
    rewrite with_Result_twice. apply with_Result_same.
  - exists c2. split; [reflexivity|]. split; [apply with_Result_same|].
    reflexivity.
Qed.

Lemma method_action_result_capture_witness :
  let rt := Sample.mkRoute StructPtrRoute [] (RawOther "*main.Action")
              (fun _ => Return [IntV 404; StringV "nope"]) in
  let c := Sample.fresh (Sample.dispatcher [] Sample.renderError rt) "/foo/" in
  exists c3,
    Context.execute Sample.removeStick 2 c = Context.Ok tt c3
    /\ Context.Result c3 = StatusResultPtr 404 (StringV "nope").
Proof.
  intros rt c.
  destruct (method_action_result_capture Sample.removeStick 1 c
              (Context.final (Context.newAction Sample.removeStick c)) rt
              "*main.Action" [IntV 404; StringV "nope"]
              (Context.emit (EvCall Reflective [ElemV Sample.actionV])
                 (Context.final (Context.newAction Sample.removeStick c))))
    as (c3 & Hex & _ & Hres).
  - repeat split.
  - reflexivity.
  - reflexivity.
  - exists c3. split; [exact Hex | exact Hres].
Defined.

(** The case of the type switch for a callable of two arguments names the
    request first, while the arguments prepared for a [FuncHttpRoute] list
    the response writer first: a callable that takes the request and then the
    writer is called directly, in that order. *)
Lemma type_switch_names_request_first :
  let rt := Sample.mkRoute FuncHttpRoute [] (RawReqResp (fun r w => (r, w)))
              Sample.noMethod in
  let c := Sample.fresh (Sample.dispatcher [] Sample.renderError rt) "/foo" in
  let c' := Context.final (Context.execute Sample.removeStick 1 c) in
  Context.execute Sample.removeStick 1 c = Context.Ok tt c'
  /\ Context.callArgs c' = Some [WriterV 2; RequestV 1]
  /\ Context.log c'
     = [EvMatch "/foo" "GET"; EvNewAction; EvCall Direct [RequestV 1; WriterV 2]].
Proof.
  intros rt c c'. vm_compute.
  split; [reflexivity|]. split; reflexivity.
Qed.

(** The arguments [newAction] prepares for a [FuncHttpRoute]: the response
    writer, then the request. *)
Lemma newAction_FuncHttpRoute_callArgs :
  forall rs c c1 rt,
    Context.matched c = false ->
    Context.newAction rs c = Context.Ok tt c1 ->
    Context.route c1 = Some rt ->
    Route.routeType rt = FuncHttpRoute ->
    Context.callArgs c1
    = Some [WriterV (rw_addr (Context.ResponseWriter c));
            RequestV (Request.addr (Context.req c))].
Proof.
  intros rs c c1 rt Hm Hn Hr Hty. unfold Context.newAction in Hn.
  rewrite Hm in Hn. simpl in Hn.
  destruct (Tango.Match _ _ _) as [[rt'|] p]; simpl in Hn.
  - destruct (Route.routeType rt') eqn:Hty'; inversion Hn; subst c1;
      simpl in Hr; inversion Hr; subst rt'; try congruence.
    reflexivity.
  - inversion Hn; subst c1. simpl in Hr. discriminate.
Qed.



(** ** The abort path *)

Lemma same_but_io_refl : forall c, same_but_io c c.
Proof. intros []. reflexivity. Qed.

Lemma same_but_io_trans :
  forall c1 c2 c3, same_but_io c1 c2 -> same_but_io c2 c3 -> same_but_io c1 c3.
Proof.
  intros [] [] []. unfold same_but_io. simpl.
  intros H1 H2. inversion H1. inversion H2. subst. reflexivity.
Qed.

Lemma same_but_io_fields :
  forall c c',
    same_but_io c c' ->
    Context.tan c' = Context.tan c /\ Context.Logger c' = Context.Logger c
    /\ Context.idx c' = Context.idx c /\ Context.stage c' = Context.stage c
    /\ Context.route c' = Context.route c /\ Context.params c' = Context.params c
    /\ Context.callArgs c' = Context.callArgs c
    /\ Context.matched c' = Context.matched c
    /\ Context.action c' = Context.action c
    /\ Context.Result c' = Context.Result c
    /\ Context.log c' = Context.log c.
Proof.
  intros c c' H. unfold same_but_io in H. rewrite <- H. simpl. repeat split.
Qed.

Lemma Body_same_but_io :
  forall c, same_but_io c (Context.final (Context.Body c)).
Proof.
  intros c. unfold Context.Body.
  destruct (ReadAll (Request.Body (Context.req c))) as [[body err] rd].
  destruct err; destruct c; reflexivity.
Qed.

Lemma Body_not_stuck :
  forall c, exists r c', Context.Body c = Context.Ok r c'.
Proof.
  intros c. unfold Context.Body.
  destruct (ReadAll (Request.Body (Context.req c))) as [[body err] rd].
  destruct err; eexists; eexists; reflexivity.
Qed.

Lemma run_renders :
  forall step p,
    renders p = true ->
    (forall data, step (CallWrite data) = calls (fun s => s) 0 (CallWrite data)) ->
    step CallBody = calls (fun s => s) 0 CallBody ->
    forall c, exists vs c',
      Context.run step p c = Context.Ok vs c' /\ same_but_io c c'.
Proof.
  intros step p. induction p as [vs | o k IH | cond yes IHy no IHn];
    intros Hr Hw Hb c; simpl in Hr.
  - exists vs, c. split; [reflexivity | apply same_but_io_refl].
  - destruct o; try discriminate.
    + simpl. unfold Context.bind. rewrite Hb. simpl.
      unfold Context.bind.
      destruct (Body_not_stuck c) as (r & c1 & Hc1).
      pose proof (Body_same_but_io c) as Hio. rewrite Hc1 in *. simpl in Hio.
      destruct (IH Hr Hw Hb c1) as (vs & c' & Hrun & Hio').
      exists vs, c'. split; [exact Hrun|].
      exact (same_but_io_trans _ _ _ Hio Hio').
    + simpl. unfold Context.bind. rewrite Hw. simpl.
      destruct (IH Hr Hw Hb
                  (Context.with_ResponseWriter
                     (Write data (Context.ResponseWriter c)) c))
        as (vs & c' & Hrun & Hio').
      exists vs, c'. split; [exact Hrun|].
      refine (same_but_io_trans _ _ _ _ Hio'). destruct c; reflexivity.
  - apply andb_true_iff in Hr. destruct Hr as [Hy Hn]. simpl.
    destruct (cond (Context.view c)).
    + exact (IHy Hy Hw Hb c).
    + exact (IHn Hn Hw Hb c).
Qed.

(** A rendering handler returns, whatever the budget left for its calls. *)
Lemma Handle_renders :
  forall rs n p c,
    renders p = true ->
    exists vs c',
      Context.Handle rs (S n) p c = Context.Ok vs c' /\ same_but_io c c'.
Proof.
  intros rs n p c Hr. rewrite Handle_S.
  apply run_renders; [exact Hr | reflexivity | reflexivity].
Qed.

Lemma bind_ret_tt :
  forall (m : Context.M unit) c, (m ;;; Context.ret tt) c = m c.
Proof.
  intros m c. unfold Context.bind, Context.ret.
  destruct (m c) as [[] c' | | ]; reflexivity.
Qed.

Lemma errors_handled_app :
  forall l1 l2,
    errors_handled (l1 ++ l2) = (errors_handled l1 + errors_handled l2)%nat.
Proof.
  induction l1 as [|e l1 IH]; intro l2; simpl.
  - reflexivity.
  - destruct e; simpl; rewrite IH; reflexivity.
Qed.

Lemma Abort_SS :
  forall rs n status body c,
    Context.Abort rs (S (S n)) status body c
    = (Context.Handle rs n (Tango.ErrHandler (Context.tan c)) ;;; Context.ret tt)
        (Context.emit (EvErr (tango.Abort status body))
           (Context.with_Result (tango.Abort status body) c)).
Proof. intros rs n status body c. reflexivity. Qed.

(** With a rendering error handler, [Abort] returns; the context it leaves
    is the one it handed to the error handler, up to what was rendered. *)
Lemma Abort_renders :
  forall rs n status body c,
    renders (Tango.ErrHandler (Context.tan c)) = true ->
    exists c',
      Context.Abort rs (S (S (S n))) status body c = Context.Ok tt c'
      /\ same_but_io
           (Context.emit (EvErr (tango.Abort status body))
              (Context.with_Result (tango.Abort status body) c)) c'.
Proof.
  intros rs n status body c Hr. rewrite Abort_SS.
  destruct (Handle_renders rs n (Tango.ErrHandler (Context.tan c))
              (Context.emit (EvErr (tango.Abort status body))
                 (Context.with_Result (tango.Abort status body) c)) Hr)
    as (vs & c' & Hrun & Hio).
  exists c'. unfold Context.bind. rewrite Hrun. split; [reflexivity | exact Hio].
Qed.

(** C6: [Abort(status, body)] stores the abort value in [Result] and calls
    the error handler on the context so changed; nothing else is written.
    When the error handler only renders, the cursor and the resolution cache
    are after [Abort] what they were before it. *)
Theorem Abort_sets_Result_and_handles_error :
  forall rs n status body c,
    Context.Abort rs (S (S n)) status body c
    = (Context.Handle rs n (Tango.ErrHandler (Context.tan c)) ;;; Context.ret tt)
        (Context.emit (EvErr (tango.Abort status body))
           (Context.with_Result (tango.Abort status body) c))
    /\ (renders (Tango.ErrHandler (Context.tan c)) = true ->
        exists c',
          Context.Abort rs (S (S (S n))) status body c = Context.Ok tt c'
          /\ Context.Result c' = tango.Abort status body
          /\ Context.log c' = Context.log c ++ [EvErr (tango.Abort status body)]
          /\ Context.idx c' = Context.idx c /\ Context.stage c' = Context.stage c
          /\ Context.route c' = Context.route c
          /\ Context.params c' = Context.params c
          /\ Context.action c' = Context.action c
          /\ Context.callArgs c' = Context.callArgs c
          /\ Context.matched c' = Context.matched c
          /\ Context.tan c' = Context.tan c
          /\ Context.Logger c' = Context.Logger c).
Proof.
  intros rs n status body c. split; [apply Abort_SS|].
  intro Hr. destruct (Abort_renders rs n status body c Hr) as (c' & Hab & Hio).
  exists c'. split; [exact Hab|].
  destruct (same_but_io_fields _ _ Hio)
    as (Ht & Hl & Hi & Hs & Hro & Hp & Hca & Hm & Ha & Hre & Hlog).
  simpl in *. repeat split; assumption.
Qed.

Lemma Abort_sets_Result_and_handles_error_witness :
  let rt := Sample.mkRoute FuncRoute [] RawFunc Sample.noMethod in
  let c := Sample.fresh (Sample.dispatcher [] Sample.renderError rt) "/foo" in
  exists c',
    Context.Abort Sample.removeStick 3 500 "boom" c = Context.Ok tt c'
    /\ Context.Result c' = tango.Abort 500 "boom"
    /\ Context.log c' = [EvErr (tango.Abort 500 "boom")]
    /\ Context.idx c' = 0 /\ Context.stage c' = 0.
Proof.
  intros rt c.
  destruct (proj2 (Abort_sets_Result_and_handles_error
                     Sample.removeStick 0 500 "boom" c) eq_refl)
    as (c' & Hab & Hres & Hlog & Hi & Hs & _).
  exists c'. repeat split; assumption.
Defined.

(** ** No route *)

(** Resolution of such a request returns, with no action and without
    touching the result, the cursor, the writer or the error handler. *)
Lemma no_route_newAction :
  forall rs c,
    no_route rs c ->
    exists c1,
      Context.newAction rs c = Context.Ok tt c1
      /\ Context.action c1 = Nil
      /\ Context.Result c1 = Context.Result c
      /\ Context.ResponseWriter c1 = Context.ResponseWriter c
      /\ Context.tan c1 = Context.tan c
      /\ errors_handled (Context.log c1) = errors_handled (Context.log c).
Proof.
  intros rs c [Ha Hm].
  destruct (Context.matched c) eqn:Hmc.
  - exists c. rewrite (newAction_matched_noop rs c Hmc). repeat split. exact Ha.
  - destruct Hm as [Hm | Hm]; [discriminate|].
    destruct (lookup rs c) as [r p] eqn:Hl. simpl in Hm. subst r.
    eexists. rewrite (newAction_unmatched rs c p Hmc Hl).
    split; [reflexivity|]. simpl. repeat split; try assumption.
    rewrite errors_handled_app. simpl. lia.
Qed.

Lemma execute_no_route :
  forall rs n c c1,
    Context.newAction rs c = Context.Ok tt c1 ->
    Context.action c1 = Nil ->
    Context.execute rs (S n) c
    = if negb (Written (Context.ResponseWriter c1))
      then Context.NotFound rs n [] c1
      else Context.Ok tt c1.
Proof.
  intros rs n c c1 Hn Ha. rewrite execute_S. unfold Context.bind.
  rewrite Hn. unfold execute_resolved. rewrite Ha. reflexivity.
Qed.

(** C3: when no route answers the request, [execute] on a response not yet
    written stores [Abort(404, "Not Found")] in [Result] and calls the error
    handler once, on that context; with a rendering error handler it returns
    with that result and one more call of the error handler on record.  On a
    response already written it only completes resolution: the result is
    left alone and the error handler is not called. *)
Theorem execute_not_found :
  forall rs n c,
    no_route rs c ->
    exists c1,
      Context.newAction rs c = Context.Ok tt c1
      /\ Context.Result c1 = Context.Result c
      /\ errors_handled (Context.log c1) = errors_handled (Context.log c)
      /\ (Written (Context.ResponseWriter c) = false ->
          Context.execute rs (S (S (S (S n)))) c
          = (Context.Handle rs n (Tango.ErrHandler (Context.tan c)) ;;; Context.ret tt)
              (Context.emit (EvErr (tango.Abort 404 "Not Found"))
                 (Context.with_Result (tango.Abort 404 "Not Found") c1))
          /\ (renders (Tango.ErrHandler (Context.tan c)) = true ->
              exists c',
                Context.execute rs (S (S (S (S (S n))))) c = Context.Ok tt c'
                /\ Context.Result c' = tango.Abort 404 "Not Found"
                /\ errors_handled (Context.log c')
                   = S (errors_handled (Context.log c))))
      /\ (Written (Context.ResponseWriter c) = true ->
          Context.execute rs (S n) c = Context.Ok tt c1).
Proof.
  intros rs n c Hno.
  destruct (no_route_newAction rs c Hno) as (c1 & Hn & Ha & Hres & Hrw & Htan & Herr).
  exists c1. split; [exact Hn|]. split; [exact Hres|]. split; [exact Herr|].
  split.
  - intro Hw. split.
    + rewrite (execute_no_route rs _ c c1 Hn Ha). rewrite Hrw, Hw. simpl negb.
      cbv iota. rewrite NotFound_S. rewrite Abort_SS. rewrite Htan. reflexivity.
    + intro Hr.
      rewrite (execute_no_route rs _ c c1 Hn Ha). rewrite Hrw, Hw. simpl negb.
      cbv iota. rewrite NotFound_S.
      rewrite <- Htan in Hr.
      destruct (Abort_renders rs n StatusNotFound (StatusText StatusNotFound) c1 Hr)
        as (c' & Hab & Hio).
      exists c'. split; [exact Hab|].
      destruct (same_but_io_fields _ _ Hio)
        as (_ & _ & _ & _ & _ & _ & _ & _ & _ & Hre & Hlog).
      split; [exact Hre|].
      rewrite Hlog. simpl Context.log. rewrite errors_handled_app. simpl.
      rewrite Herr. lia.
  - intro Hw. rewrite (execute_no_route rs n c c1 Hn Ha). rewrite Hrw, Hw.
    reflexivity.
Qed.

Lemma execute_not_found_witness :
  let rt := Sample.mkRoute FuncRoute [] RawFunc Sample.noMethod in
  let c := Sample.fresh (Sample.dispatcher [] Sample.renderError rt) "/bar" in
  exists c',
    Context.execute Sample.removeStick 5 c = Context.Ok tt c'
    /\ Context.Result c' = tango.Abort 404 "Not Found"
    /\ errors_handled (Context.log c') = 1%nat.
Proof.
  intros rt c.
  destruct (execute_not_found Sample.removeStick 0 c
              (conj eq_refl (or_intror eq_refl)))
    as (c1 & _ & _ & _ & Hnw & _).
  destruct (proj2 (Hnw eq_refl) eq_refl) as (c' & Hex & Hres & Hcount).
  exists c'. repeat split; assumption.
Defined.

(** ** Aborting from a global middleware *)

Lemma run_Do :
  forall step o k c,
    Context.run step (Do o k) c
    = match step o c with
      | Context.Ok _ c' => Context.run step k c'
      | Context.Panicked msg c' => Context.Panicked msg c'
      | Context.OutOfFuel c' => Context.OutOfFuel c'
      end.
Proof. intros step o k c. reflexivity. Qed.

Lemma calls_Abort :
  forall rs n status body,
    calls rs n (CallAbort status body) = Context.Abort rs n status body.
Proof. intros rs n status body. reflexivity. Qed.

Lemma calls_Body :
  forall rs n c,
    calls rs n CallBody c
    = match Context.Body c with
      | Context.Ok _ c' => Context.Ok tt c'
      | Context.Panicked msg c' => Context.Panicked msg c'
      | Context.OutOfFuel c' => Context.OutOfFuel c'
      end.
Proof. intros rs n c. reflexivity. Qed.

Lemma calls_Write :
  forall rs n data c,
    calls rs n (CallWrite data) c
    = Context.Ok tt
        (Context.with_ResponseWriter (Write data (Context.ResponseWriter c)) c).
Proof. intros rs n data c. reflexivity. Qed.

Lemma run_aborts_once :
  forall rs n status body p,
    aborts_once status body p = true ->
    forall c,
      renders (Tango.ErrHandler (Context.tan c)) = true ->
      exists vs c',
        Context.run (calls rs (S (S (S n)))) p c = Context.Ok vs c'
        /\ aborted status body c c'.
Proof.
  intros rs n status body p.
  induction p as [vs | o k IH | cond yes IHy no IHn]; intros Hp c Hr; simpl in Hp.
  - discriminate.
  - destruct o; try discriminate.
    + (* Abort *)
      apply andb_true_iff in Hp. destruct Hp as [Hp Hk].
      apply andb_true_iff in Hp. destruct Hp as [Hs Hb].
      apply Z.eqb_eq in Hs. apply String.eqb_eq in Hb. subst status0 body0.
      destruct (Abort_renders rs n status body c Hr) as (c1 & Hab & Hio).
      destruct (run_renders (calls rs (S (S (S n)))) k Hk
                  (fun _ => eq_refl) eq_refl c1) as (vs & c' & Hrun & Hio').
      exists vs, c'. split.
      * rewrite run_Do, calls_Abort, Hab. exact Hrun.
      * pose proof (same_but_io_fields _ _ (same_but_io_trans _ _ _ Hio Hio'))
          as (Ht & _ & Hi & Hst & _ & _ & _ & _ & _ & Hre & Hlog).
        unfold aborted. simpl in *. repeat split; assumption.
    + (* Body *)
      destruct (Body_not_stuck c) as (r & c1 & Hc1).
      pose proof (Body_same_but_io c) as Hio. rewrite Hc1 in Hio. simpl in Hio.
      destruct (same_but_io_fields _ _ Hio)
        as (Ht & _ & Hi & Hst & _ & _ & _ & _ & _ & Hre & Hlog).
      rewrite <- Ht in Hr.
      destruct (IH Hp c1 Hr) as (vs & c' & Hrun & Hl' & Hr' & Hi' & Hs' & Ht').
      exists vs, c'. split.
      * rewrite run_Do, calls_Body, Hc1. exact Hrun.
      * unfold aborted. rewrite Hl', Hi', Hs', Ht', Hlog, Hi, Hst, Ht.
        repeat split; assumption.
    + (* Write *)
      destruct (IH Hp (Context.with_ResponseWriter
                         (Write data (Context.ResponseWriter c)) c) Hr)
        as (vs & c' & Hrun & Hl' & Hr' & Hi' & Hs' & Ht').
      exists vs, c'. split; [rewrite run_Do, calls_Write; exact Hrun|].
      unfold aborted. rewrite Hl', Hi', Hs', Ht'. repeat split; assumption.
  - apply andb_true_iff in Hp. destruct Hp as [Hy Hn]. simpl.
    destruct (cond (Context.view c)).
    + exact (IHy Hy c Hr).
    + exact (IHn Hn c Hr).
Qed.

Lemma invoke_global :
  forall rs n c h,
    Context.stage c = 0 ->
    index (Tango.handlers (Context.tan c)) (Context.idx c) = Some h ->
    Context.invoke rs (S n) c
    = (Context.Handle rs n h ;;; Context.ret tt)
        (Context.emit (EvGlobal (Context.idx c)) c).
Proof.
  intros rs n c h Hs Hi. rewrite invoke_S. rewrite Hs. simpl.
  assert (Hlt : (Context.idx c <? len (Tango.handlers (Context.tan c))) = true).
  { unfold index in Hi.
    destruct (Context.idx c <? len (Tango.handlers (Context.tan c))).
    - reflexivity.
    - rewrite andb_false_r in Hi. discriminate. }
  rewrite Hlt, Hi. reflexivity.
Qed.



(** ** The two stages of the chain *)

Section Phases.

Variable globals : Z.

Lemma fold_phase_None :
  forall l, fold_left (phase_step globals) l None = None.
Proof. induction l as [|e l IH]; simpl; [reflexivity | exact IH]. Qed.

Lemma fold_phase_switches :
  forall l b0 b,
    fold_left (phase_step globals) l (Some b0) = Some b ->
    (stage_switches l + (if b0 then 1 else 0) = (if b then 1 else 0))%nat.
Proof.
  induction l as [|e l IH]; intros b0 b H; simpl in H.
  - inversion H. reflexivity.
  - destruct e; simpl in *;
      try (exact (IH b0 b H));
      destruct b0; try (rewrite fold_phase_None in H; discriminate);
      try (exact (IH _ b H)).
    destruct (globals <=? idx_before).
    + specialize (IH true b H). simpl in IH. lia.
    + rewrite fold_phase_None in H. discriminate.
Qed.

Lemma fold_phase_switched :
  forall l b0,
    fold_left (phase_step globals) l (Some b0) = Some true ->
    b0 = true
    \/ exists l0 k l0', l = l0 ++ EvStage k :: l0' /\ globals <= k.
Proof.
  induction l as [|e l IH]; intros b0 H; cbn [fold_left] in H.
  - inversion H. left. reflexivity.
  - assert (Hcons : forall b1,
               phase_step globals (Some b0) e = Some b1 ->
               (b1 = true -> b0 = true \/ exists k, e = EvStage k /\ globals <= k) ->
               b0 = true
               \/ exists l0 k l0', e :: l = l0 ++ EvStage k :: l0' /\ globals <= k).
    { intros b1 Hstep Hb1. rewrite Hstep in H.
      destruct (IH b1 H) as [Ht | (l0 & k & l0' & Hl & Hk)].
      - destruct (Hb1 Ht) as [Hb0 | (k & He & Hk)]; [left; exact Hb0|].
        right. exists [], k, l. subst e. split; [reflexivity | exact Hk].
      - right. exists (e :: l0), k, l0'. subst l. split; [reflexivity | exact Hk]. }
    destruct e; simpl in H;
      try (apply (Hcons b0 eq_refl); intro Hb; left; exact Hb).
    + destruct b0; [rewrite fold_phase_None in H; discriminate|].
      apply (Hcons false eq_refl). intro Hb. discriminate.
    + destruct b0; [|rewrite fold_phase_None in H; discriminate].
      left. reflexivity.
    + destruct b0; [left; reflexivity|].
      destruct (globals <=? idx_before) eqn:Hle.
      * apply (Hcons true); [simpl; rewrite Hle; reflexivity|].
        intros _. right. exists idx_before. split; [reflexivity|].
        apply Z.leb_le. exact Hle.
      * rewrite fold_phase_None in H. discriminate.
Qed.

Lemma phase_prefix :
  forall l1 l2 b,
    phase globals (l1 ++ l2) = Some b -> exists b1, phase globals l1 = Some b1.
Proof.
  intros l1 l2 b. unfold phase. rewrite fold_left_app.
  destruct (fold_left (phase_step globals) l1 (Some false)) as [b1|].
  - intros _. exists b1. reflexivity.
  - rewrite fold_phase_None. discriminate.
Qed.

(** A route handler appears in a legal log only after the stage switch. *)
Lemma phase_local_after_switch :
  forall l1 i l2 b,
    phase globals (l1 ++ EvLocal i :: l2) = Some b ->
    exists l0 k l0', l1 = l0 ++ EvStage k :: l0' /\ globals <= k.
Proof.
  intros l1 i l2 b H. unfold phase in H. rewrite fold_left_app in H.
  destruct (fold_left (phase_step globals) l1 (Some false)) as [[|]|] eqn:H1.
  - destruct (fold_phase_switched l1 false H1) as [Hf | Hex];
      [discriminate | exact Hex].
  - simpl in H. rewrite fold_phase_None in H. discriminate.
  - rewrite fold_phase_None in H. discriminate.
Qed.

(** A global handler appears in a legal log only before the stage switch. *)
Lemma phase_global_before_switch :
  forall l1 i l2 b,
    phase globals (l1 ++ EvGlobal i :: l2) = Some b ->
    stage_switches l1 = O.
Proof.
  intros l1 i l2 b H. unfold phase in H. rewrite fold_left_app in H.
  destruct (fold_left (phase_step globals) l1 (Some false)) as [[|]|] eqn:H1.
  - simpl in H. rewrite fold_phase_None in H. discriminate.
  - pose proof (fold_phase_switches l1 false false H1) as Hc. simpl in Hc. lia.
  - rewrite fold_phase_None in H. discriminate.
Qed.

Lemma phase_snoc :
  forall l e,
    phase globals (l ++ [e]) = phase_step globals (phase globals l) e.
Proof. intros l e. unfold phase. rewrite fold_left_app. reflexivity. Qed.

End Phases.

Lemma later_refl : forall c, chain_ok c -> later c c.
Proof. intros c H. repeat split; try exact (proj1 H); try exact (proj2 H); lia. Qed.

Lemma later_trans :
  forall c1 c2 c3, later c1 c2 -> later c2 c3 -> later c1 c3.
Proof.
  intros c1 c2 c3 (H1 & Ht1 & Hs1) (H2 & Ht2 & Hs2).
  repeat split; try exact (proj1 H2); try exact (proj2 H2); try congruence; lia.
Qed.

(** Fields other than the dispatcher, the stage and the log do not matter. *)
Lemma later_same_core :
  forall c c',
    chain_ok c ->
    Context.tan c' = Context.tan c ->
    Context.stage c' = Context.stage c ->
    Context.log c' = Context.log c ->
    later c c'.
Proof.
  intros c c' [Hp Hs] Ht Hst Hl. unfold later, chain_ok.
  rewrite Ht, Hst, Hl. repeat split; try assumption; lia.
Qed.

Lemma later_emit_neutral :
  forall c e, chain_ok c -> neutral e = true -> later c (Context.emit e c).
Proof.
  intros c e [Hp Hs] He. unfold later, chain_ok. simpl.
  rewrite phase_snoc, Hp.
  repeat split; try assumption; try lia.
  destruct e; try discriminate; reflexivity.
Qed.

Lemma later_emit_global :
  forall c i,
    chain_ok c -> Context.stage c = 0 -> later c (Context.emit (EvGlobal i) c).
Proof.
  intros c i [Hp Hs] H0. unfold later, chain_ok. simpl.
  rewrite phase_snoc, Hp, H0. simpl. repeat split; lia.
Qed.

Lemma later_emit_local :
  forall c i,
    chain_ok c -> Context.stage c = 1 -> later c (Context.emit (EvLocal i) c).
Proof.
  intros c i [Hp Hs] H1. unfold later, chain_ok. simpl.
  rewrite phase_snoc, Hp, H1. simpl. repeat split; lia.
Qed.

Lemma later_switch :
  forall c,
    chain_ok c ->
    Context.stage c = 0 ->
    len (Tango.handlers (Context.tan c)) <= Context.idx c ->
    later c (Context.with_stage 1
               (Context.with_idx 0 (Context.emit (EvStage (Context.idx c)) c))).
Proof.
  intros c [Hp Hs] H0 Hlen. unfold later, chain_ok. simpl.
  rewrite phase_snoc, Hp, H0. simpl.
  apply Z.leb_le in Hlen. rewrite Hlen.
  repeat split; lia.
Qed.

Lemma keeps_ret : forall (A : Type) (a : A), keeps (Context.ret a).
Proof. intros A a c H. simpl. apply later_refl. exact H. Qed.

Lemma keeps_bind :
  forall (A B : Type) (m : Context.M A) (k : A -> Context.M B),
    keeps m -> (forall a, keeps (k a)) -> keeps (Context.bind m k).
Proof.
  intros A B m k Hm Hk c Hc. unfold Context.bind.
  specialize (Hm c Hc).
  destruct (m c) as [a c' | msg c' | c']; simpl in *; try exact Hm.
  exact (later_trans _ _ _ Hm (Hk a c' (proj1 Hm))).
Qed.

Lemma keeps_modify :
  forall f,
    (forall c, Context.tan (f c) = Context.tan c
               /\ Context.stage (f c) = Context.stage c
               /\ Context.log (f c) = Context.log c) ->
    keeps (Context.modify f).
Proof.
  intros f Hf c Hc. simpl. destruct (Hf c) as (Ht & Hs & Hl).
  apply later_same_core; assumption.
Qed.

Lemma keeps_panic : forall (A : Type) msg, keeps (@Context.panic A msg).
Proof. intros A msg c H. simpl. apply later_refl. exact H. Qed.

Lemma newAction_cursor :
  forall rs c,
    Context.idx (Context.final (Context.newAction rs c)) = Context.idx c
    /\ Context.stage (Context.final (Context.newAction rs c)) = Context.stage c.
Proof.
  intros rs c. unfold Context.newAction.
  destruct (Context.matched c); simpl; [split; reflexivity|].
  destruct (Tango.Match _ _ _) as [[rt|] p]; simpl; [|split; reflexivity].
  destruct (Route.routeType rt); simpl; split; reflexivity.
Qed.

Lemma keeps_newAction : forall rs, keeps (Context.newAction rs).
Proof.
  intros rs c Hc. unfold Context.newAction.
  destruct (Context.matched c); simpl; [apply later_refl; exact Hc|].
  destruct (Tango.Match _ _ _) as [[rt|] p]; simpl.
  - set (ev := EvMatch _ _).
    assert (H1 : later c (Context.emit ev c))
      by (apply later_emit_neutral; [exact Hc | reflexivity]).
    assert (H2 : later c (Context.emit EvNewAction
                            (Context.with_params p
                               (Context.with_route (Some rt) (Context.emit ev c))))).
    { refine (later_trans _ _ _ H1 _).
      refine (later_trans _ (Context.with_params p
                               (Context.with_route (Some rt) (Context.emit ev c))) _ _ _).
      - apply later_same_core; [exact (proj1 H1) | reflexivity ..].
      - apply later_emit_neutral; [|reflexivity].
        apply (later_same_core (Context.emit ev c)); [exact (proj1 H1) | reflexivity ..]. }
    destruct (Route.routeType rt); simpl;
      refine (later_trans _ _ _ H2 _);
      (apply later_same_core; [exact (proj1 H2) | reflexivity ..]).
  - set (ev := EvMatch _ _).
    assert (H1 : later c (Context.emit ev c))
      by (apply later_emit_neutral; [exact Hc | reflexivity]).
    refine (later_trans _ _ _ H1 _).
    apply later_same_core; [exact (proj1 H1) | reflexivity ..].
Qed.

Lemma keeps_Body : keeps Context.Body.
Proof.
  intros c Hc.
  destruct (same_but_io_fields _ _ (Body_same_but_io c))
    as (Ht & _ & _ & Hs & _ & _ & _ & _ & _ & _ & Hl).
  apply later_same_core; assumption.
Qed.

Lemma keeps_get : keeps Context.get.
Proof. intros c H. simpl. apply later_refl. exact H. Qed.

Lemma keeps_run :
  forall step p, (forall o, keeps (step o)) -> keeps (Context.run step p).
Proof.
  intros step p Hstep.
  induction p as [vs | o k IH | cond yes IHy no IHn]; simpl.
  - apply keeps_ret.
  - apply keeps_bind; [apply Hstep | intros _; exact IH].
  - intros c Hc. destruct (cond (Context.view c)); [apply IHy | apply IHn]; exact Hc.
Qed.

Lemma keeps_capture : forall rets, keeps (capture rets).
Proof.
  intros rets. unfold capture.
  destruct rets as [|r0 [|r1 [|r2 rest]]].
  - apply keeps_ret.
  - apply keeps_modify. intro c0. repeat split.
  - destruct (as_int (Interface r0)).
    + apply keeps_modify. intro c0. repeat split.
    + apply keeps_ret.
  - apply keeps_ret.
Qed.

Lemma keeps_callAction :
  forall rs n rt,
    (forall h, keeps (Context.Handle rs n h)) -> keeps (callAction rs n rt).
Proof.
  intros rs n rt Hh c Hc. unfold callAction.
  destruct (Route.raw rt) as [fn | fn | | fn | fn | ty].
  - refine (later_trans _ _ _
              (later_emit_neutral c (EvCall Direct [ContextV]) Hc eq_refl) _).
    apply (keeps_bind _ _ _ _ (Hh fn) (fun _ => keeps_ret _ [])).
    apply later_emit_neutral; [exact Hc | reflexivity].
  - cbv zeta. simpl Context.req. simpl Context.ResponseWriter.
    destruct (fn (Context.req c) (Context.ResponseWriter c)) as [r w]. simpl.
    match goal with
    | |- later c (Context.with_ResponseWriter _ (Context.with_req _ (Context.emit ?e c))) =>
        refine (later_trans _ _ _ (later_emit_neutral c e Hc eq_refl) _);
        apply later_same_core;
        [exact (proj1 (later_emit_neutral c e Hc eq_refl)) | reflexivity ..]
    end.
  - simpl. apply later_emit_neutral; [exact Hc | reflexivity].
  - simpl.
    match goal with
    | |- later c (Context.with_req _ (Context.emit ?e c)) =>
        refine (later_trans _ _ _ (later_emit_neutral c e Hc eq_refl) _);
        apply later_same_core;
        [exact (proj1 (later_emit_neutral c e Hc eq_refl)) | reflexivity ..]
    end.
  - simpl.
    match goal with
    | |- later c (Context.with_ResponseWriter _ (Context.emit ?e c)) =>
        refine (later_trans _ _ _ (later_emit_neutral c e Hc eq_refl) _);
        apply later_same_core;
        [exact (proj1 (later_emit_neutral c e Hc eq_refl)) | reflexivity ..]
    end.
  - match goal with
    | |- later c (Context.final (Context.Handle rs n ?h (Context.emit ?e c))) =>
        refine (later_trans _ _ _ (later_emit_neutral c e Hc eq_refl) _);
        apply Hh; exact (proj1 (later_emit_neutral c e Hc eq_refl))
    end.
Qed.

Lemma keeps_calls :
  forall rs n o, chain_keeps rs n -> keeps (calls rs n o).
Proof.
  intros rs n o (Hinv & _ & Hnext & _ & Herr & Hun & Hnf & Hab).
  destruct o; unfold calls, Context.doOp.
  - exact Hnext.
  - apply Hab.
  - apply Hnf.
  - exact Hun.
  - exact Herr.
  - apply keeps_bind; [|intros _; apply keeps_ret].
    apply keeps_bind; [apply keeps_newAction|]. intros _.
    apply keeps_bind; [apply keeps_get | intro; apply keeps_ret].
  - apply keeps_bind; [|intros _; apply keeps_ret].
    apply keeps_bind; [apply keeps_newAction|]. intros _.
    apply keeps_bind; [apply keeps_get | intro; apply keeps_ret].
  - apply keeps_bind; [|intros _; apply keeps_ret].
    apply keeps_bind; [apply keeps_newAction|]. intros _.
    apply keeps_bind; [apply keeps_get | intro; apply keeps_ret].
  - apply keeps_bind; [apply keeps_Body | intros _; apply keeps_ret].
  - apply keeps_modify. intro c. repeat split.
  - apply keeps_modify. intro c. repeat split.
  - apply keeps_panic.
Qed.

Lemma keeps_execute_resolved :
  forall rs n c,
    chain_keeps rs n ->
    chain_ok c ->
    (Context.stage c = 0 -> len (Tango.handlers (Context.tan c)) <= Context.idx c) ->
    later c (Context.final (execute_resolved rs n c)).
Proof.
  intros rs n c (Hinv & _ & _ & Hh & _ & _ & Hnf & _) Hc Hidx.
  unfold execute_resolved.
  destruct (negb (is_nil (Context.action c))).
  - destruct (Context.route c) as [rt|]; [|apply later_refl; exact Hc].
    destruct ((len (Route.handlers rt) >? 0) && (Context.stage c =? 0)) eqn:Hsw.
    + apply andb_true_iff in Hsw. destruct Hsw as [_ Hs0].
      apply Z.eqb_eq in Hs0.
      pose proof (later_switch c Hc Hs0 (Hidx Hs0)) as Hl.
      exact (later_trans _ _ _ Hl (Hinv _ (proj1 Hl))).
    + apply (keeps_bind _ _ _ _ (keeps_callAction rs n rt Hh) keeps_capture).
      exact Hc.
  - destruct (negb (Written (Context.ResponseWriter c))).
    + apply Hnf. exact Hc.
    + apply later_refl. exact Hc.
Qed.

Lemma chain_keeps_all : forall rs n, chain_keeps rs n.
Proof.
  intros rs n. induction n as [|n IH].
  - unfold chain_keeps, keeps. simpl.
    refine (conj _ (conj _ (conj _ (conj _ (conj _ (conj _ (conj _ _)))))));
      intros; apply later_refl; assumption.
  - pose proof IH as (Hinv & Hex & Hnext & Hh & Herr & Hun & Hnf & Hab).
    unfold chain_keeps.
    refine (conj _ (conj _ (conj _ (conj _ (conj _ (conj _ (conj _ _))))))).
    + (* invoke *)
      intros c Hc. rewrite invoke_S.
      destruct (Context.stage c =? 0) eqn:Hs0.
      * apply Z.eqb_eq in Hs0.
        destruct (Context.idx c <? len (Tango.handlers (Context.tan c))) eqn:Hlt.
        -- destruct (index _ _) as [h|]; [|apply later_refl; exact Hc].
           pose proof (later_emit_global c (Context.idx c) Hc Hs0) as Hl.
           refine (later_trans _ _ _ Hl _).
           apply (keeps_bind _ _ _ _ (Hh h) (fun _ => keeps_ret _ tt)).
           exact (proj1 Hl).
        -- apply Hex; [exact Hc|]. intros _. apply Z.ltb_ge. exact Hlt.
      * destruct (Context.stage c =? 1) eqn:Hs1; [|apply later_refl; exact Hc].
        apply Z.eqb_eq in Hs1.
        destruct (Context.route c) as [rt|]; [|apply later_refl; exact Hc].
        destruct (Context.idx c <? len (Route.handlers rt)).
        -- destruct (index _ _) as [h|]; [|apply later_refl; exact Hc].
           pose proof (later_emit_local c (Context.idx c) Hc Hs1) as Hl.
           refine (later_trans _ _ _ Hl _).
           apply (keeps_bind _ _ _ _ (Hh h) (fun _ => keeps_ret _ tt)).
           exact (proj1 Hl).
        -- apply Hex; [exact Hc|]. intro H0. rewrite H0 in Hs1. discriminate.
    + (* execute *)
      intros c Hc Hidx. rewrite execute_S. unfold Context.bind.
      pose proof (keeps_newAction rs c Hc) as Hl.
      destruct (newAction_cursor rs c) as [Hi Hs].
      destruct (Context.newAction rs c) as [[] c1 | msg c1 | c1];
        simpl in Hl, Hi, Hs; simpl; try exact Hl.
      refine (later_trans _ _ _ Hl _).
      apply (keeps_execute_resolved rs n c1 IH (proj1 Hl)).
      destruct Hl as (_ & Ht & _). rewrite Ht, Hi, Hs. exact Hidx.
    + (* Next *)
      intros c Hc. rewrite Next_S.
      assert (Hl : later c (Context.with_idx (int_add (Context.idx c) 1) c))
        by (apply later_same_core; [exact Hc | reflexivity ..]).
      exact (later_trans _ _ _ Hl (Hinv _ (proj1 Hl))).
    + (* Handle *)
      intro h. rewrite Handle_S. apply keeps_run.
      intro o. apply keeps_calls. exact IH.
    + (* HandleError *)
      intros c Hc. rewrite HandleError_S.
      pose proof (later_emit_neutral c (EvErr (Context.Result c)) Hc eq_refl) as Hl.
      refine (later_trans _ _ _ Hl _).
      apply (keeps_bind _ _ _ _ (Hh _) (fun _ => keeps_ret _ tt)).
      exact (proj1 Hl).
    + (* Unauthorized *)
      rewrite Unauthorized_S. apply Hab.
    + (* NotFound *)
      intro message. rewrite NotFound_S. destruct message; apply Hab.
    + (* Abort *)
      intros status body c Hc. rewrite Abort_S.
      assert (Hl : later c (Context.with_Result (tango.Abort status body) c))
        by (apply later_same_core; [exact Hc | reflexivity ..]).
      exact (later_trans _ _ _ Hl (Herr _ (proj1 Hl))).
Qed.

Lemma later_protocol : forall c c', later c c' -> request_protocol c c'.
Proof.
  intros c c' ([Hp Hs] & Ht & Hle). unfold request_protocol.
  rewrite Ht in Hp.
  split; [exact Hs|]. split; [exact Hle|]. split; [|split].
  - pose proof (fold_phase_switches _ _ false _ Hp) as H. simpl in H.
    rewrite <- H. lia.
  - intros l1 i l2 Hl. rewrite Hl in Hp.
    exact (phase_local_after_switch _ l1 i l2 _ Hp).
  - intros l1 i l2 Hl. rewrite Hl in Hp.
    exact (phase_global_before_switch _ l1 i l2 _ Hp).
Qed.

(** A context just reset, at the start of its log, is legal. *)
Lemma chain_ok_reset :
  forall rq rw c, Context.log c = [] -> chain_ok (Context.reset rq rw c).
Proof.
  intros rq rw c Hl. unfold chain_ok. simpl. rewrite Hl.
  split; [reflexivity | left; reflexivity].
Qed.



(** ** [IP] *)

(** The first piece of a split is the text before the first separator. *)
Lemma Split_first_piece :
  forall sep s,
    exists h l t,
      Split s sep = h :: l
      /\ has_byte sep h = false
      /\ s = (h ++ t)%string
      /\ (t = EmptyString \/ exists t', t = String sep t').
Proof.
  intros sep s. induction s as [|a rest IH].
  - exists EmptyString, [], EmptyString. simpl. repeat split. left. reflexivity.
  - simpl. destruct (Ascii.eqb a sep) eqn:Ha.
    + apply Ascii.eqb_eq in Ha. subst a.
      exists EmptyString, (Split rest sep), (String sep rest). simpl.
      repeat split. right. exists rest. reflexivity.
    + destruct IH as (h & l & t & Hs & Hh & Hrest & Ht). rewrite Hs.
      exists (String a h), l, t. simpl. rewrite Ha, Hh.
      repeat split; [rewrite Hrest; reflexivity | exact Ht].
Qed.

Lemma hd_Split_starts :
  forall sep a rest,
    a <> sep ->
    exists h, hd EmptyString (Split (String a rest) sep) = String a h.
Proof.
  intros sep a rest Ha. simpl.
  destruct (Ascii.eqb a sep) eqn:He; [apply Ascii.eqb_eq in He; contradiction|].
  destruct (Split_first_piece sep rest) as (h & l & t & Hs & _). rewrite Hs.
  exists h. reflexivity.
Qed.

Lemma len_cons_pos :
  forall (A : Type) (x : A) (l : list A), (len (x :: l) >? 0) = true.
Proof. intros A x l. unfold len. simpl List.length. apply Z.gtb_lt. lia. Qed.

(** X1: a forwarded-for header that does not begin with a comma decides the
    address, whatever the remote address is: [IP] returns the text of the
    header before its first comma, which is not empty and holds no comma. *)
Theorem IP_prefers_forwarded_for :
  forall c a rest,
    forwarded_for c = String a rest ->
    a <> ","%char ->
    exists h tail,
      Context.IP c = String a h
      /\ has_byte ","%char (Context.IP c) = false
      /\ forwarded_for c = (Context.IP c ++ tail)%string
      /\ (tail = EmptyString \/ exists t', tail = String ","%char t').
Proof.
  intros c a rest Hf Ha. unfold Context.IP. fold (forwarded_for c). rewrite Hf.
  cbv zeta. simpl (negb (String.eqb (String a rest) EmptyString)). cbv iota.
  destruct (Split_first_piece ","%char (String a rest))
    as (h & l & t & Hs & Hh & Hrest & Ht).
  destruct (hd_Split_starts ","%char a rest Ha) as (h' & Hh').
  rewrite Hs in *. simpl hd in *. subst h.
  rewrite len_cons_pos. simpl (negb (String.eqb (String a h') EmptyString)).
  simpl andb. cbv iota.
  exists h', t. repeat split; assumption.
Qed.

Lemma IP_prefers_forwarded_for_witness :
  let rq := {| Request.addr := 1; Request.Method := "GET"; Request.URL_Path := "/";
               Request.Header := [("Accept", "*/*"); ("X-Forwarded-For", "1.2.3.4,10.0.0.9")];
               Request.RemoteAddr := "10.0.0.1:80";
               Request.Body := NopCloser_NewBuffer [] |} in
  let c := Context.with_req rq
             (Sample.fresh (Sample.dispatcher [] Sample.renderError
                (Sample.mkRoute FuncRoute [] RawFunc Sample.noMethod)) "/") in
  Context.IP c = "1.2.3.4" /\ has_byte ","%char (Context.IP c) = false.
Proof.
  intros rq c.
  destruct (IP_prefers_forwarded_for c "1"%char ".2.3.4,10.0.0.9" eq_refl)
    as (h & tail & Hip & Hno & _).
  - discriminate.
  - split; [reflexivity | exact Hno].
Defined.

(** X2: without a usable forwarded-for header (none, empty, or beginning
    with a comma) [IP] answers from the remote address: the text before its
    first colon, except that a lone opening bracket gives [127.0.0.1].  The
    answer holds no colon. *)
Theorem IP_from_RemoteAddr :
  forall c,
    (forwarded_for c = EmptyString
     \/ exists rest, forwarded_for c = String ","%char rest) ->
    exists h tail,
      Request.RemoteAddr (Context.Req c) = (h ++ tail)%string
      /\ has_byte ":"%char h = false
      /\ (tail = EmptyString \/ exists t', tail = String ":"%char t')
      /\ Context.IP c = (if String.eqb h "[" then "127.0.0.1" else h)
      /\ has_byte ":"%char (Context.IP c) = false.
Proof.
  intros c Hf. unfold Context.IP. fold (forwarded_for c).
  destruct (Split_first_piece ":"%char (Request.RemoteAddr (Context.Req c)))
    as (h & l & t & Hs & Hh & Hrest & Ht).
  exists h, t.
  assert (Hproxy :
            (let proxy :=
               let ips := forwarded_for c in
               if negb (String.eqb ips EmptyString) then Split ips ","%char else [] in
             (len proxy >? 0) && negb (String.eqb (hd EmptyString proxy) EmptyString))
            = false).
  { destruct Hf as [Hf | (rest & Hf)]; rewrite Hf; simpl.
    - reflexivity.
    - rewrite ?andb_false_r. reflexivity. }
  cbv zeta in Hproxy |- *. rewrite Hproxy. rewrite Hs. simpl hd.
  rewrite len_cons_pos. simpl andb.
  split; [exact Hrest|]. split; [exact Hh|]. split; [exact Ht|].
  destruct (String.eqb h "["); simpl; split; try reflexivity; exact Hh.
Qed.

Lemma IP_from_RemoteAddr_witness :
  let rq := {| Request.addr := 1; Request.Method := "GET"; Request.URL_Path := "/";
               Request.Header := [("X-Forwarded-For", ",10.0.0.9")];
               Request.RemoteAddr := "[::1]:8080";
               Request.Body := NopCloser_NewBuffer [] |} in
  let c := Context.with_req rq
             (Sample.fresh (Sample.dispatcher [] Sample.renderError
                (Sample.mkRoute FuncRoute [] RawFunc Sample.noMethod)) "/") in
  Context.IP c = "127.0.0.1" /\ has_byte ":"%char (Context.IP c) = false.
Proof.
  intros rq c.
  destruct (IP_from_RemoteAddr c (or_intror (ex_intro _ "10.0.0.9" eq_refl)))
    as (h & tail & _ & _ & _ & _ & Hno).
  split; [reflexivity | exact Hno].
Defined.

(** ** More on [Body] and the decoders *)

Lemma with_req_same :
  forall c, Context.with_req (Context.req c) c = c.
Proof. intros []. reflexivity. Qed.

Lemma with_Body_same :
  forall r, Request.with_Body (Request.Body r) r = r.
Proof. intros []. reflexivity. Qed.

Lemma Body_failure_inv :
  forall c c1 err,
    Context.Body c = Context.Ok (None, Some err) c1 ->
    c1 = Context.with_req
           (Request.with_Body (snd (ReadAll (Request.Body (Context.req c))))
              (Context.req c)) c
    /\ snd (fst (ReadAll (Request.Body (Context.req c)))) = Some err.
Proof.
  intros c c1 err. unfold Context.Body.
  destruct (ReadAll (Request.Body (Context.req c))) as [[body e] rd].
  destruct e as [e|]; simpl; intro H; inversion H; subst. split; reflexivity.
Qed.



(** X5: the decoders do not use up the body.  When [Body()] succeeds,
    [DecodeJson] hands the whole body to the JSON decoder and leaves the
    context as [Body()] does, so a following [DecodeXml] (or a second
    [DecodeJson]) decodes the same bytes; when [Body()] fails, the decoder is
    not run: the target is returned untouched with the error of [Body()]. *)
Theorem decoders_share_the_body :
  forall (json_Unmarshal xml_Unmarshal : list byte -> Value -> Value * option string)
         c r c1 obj,
    Context.Body c = Context.Ok r c1 ->
    match r with
    | (Some body, None) =>
        Context.DecodeJson json_Unmarshal obj c
        = Context.Ok (json_Unmarshal body obj) c1
        /\ (forall obj',
              Context.DecodeXml xml_Unmarshal obj' c1
              = Context.Ok (xml_Unmarshal body obj') c1)
        /\ Context.DecodeJson json_Unmarshal obj c1
           = Context.Ok (json_Unmarshal body obj) c1
    | (_, Some err) =>
        Context.DecodeJson json_Unmarshal obj c = Context.Ok (obj, Some err) c1
        /\ Context.DecodeXml xml_Unmarshal obj c = Context.Ok (obj, Some err) c1
    | (None, None) => False
    end.
Proof.
  intros ju xu c r c1 obj H.
  destruct r as [[body|] [err|]].
  - unfold Context.DecodeJson, Context.DecodeXml, Context.bind. rewrite H.
    split; reflexivity.
  - destruct (Body_success_inv c c1 body H) as (_ & _ & _ & Hc1).
    assert (H1 : Context.Body c1 = Context.Ok (Some body, None) c1).
    { subst c1. unfold Context.Body. simpl. reflexivity. }
    unfold Context.DecodeJson, Context.DecodeXml, Context.bind.
    rewrite H, H1. repeat split.
  - unfold Context.DecodeJson, Context.DecodeXml, Context.bind. rewrite H.
    split; reflexivity.
  - unfold Context.Body in H.
    destruct (ReadAll (Request.Body (Context.req c))) as [[body e] rd].
    destruct e; discriminate.
Qed.

Lemma decoders_share_the_body_witness :
  let ju := fun (b : list byte) (_ : Value) => (IntV (len b), @None string) in
  let xu := fun (b : list byte) (_ : Value) => (IntV (len b + 1), @None string) in
  let c := Sample.fresh (Sample.dispatcher [] Sample.renderError
             (Sample.mkRoute FuncRoute [] RawFunc Sample.noMethod)) "/foo" in
  let c1 := Context.final (Context.Body c) in
  Context.DecodeJson ju Nil c = Context.Ok (IntV 2, None) c1
  /\ Context.DecodeXml xu Nil c1 = Context.Ok (IntV 3, None) c1.
Proof.
  intros ju xu c c1.
  assert (H : Context.Body c = Context.Ok (Some [x68; x69], None) c1) by reflexivity.
  destruct (decoders_share_the_body ju xu c _ c1 Nil H) as (Hj & Hx & _).
  split; [exact Hj | exact (Hx Nil)].
Defined.

(** ** The calling conventions *)

(** X6: the first resolution of a request that matches a route of a
    supported kind stores the route, the matcher's parameters, the route's
    fresh action and the arguments of the kind's calling convention, sets
    [matched], and leaves the cursor, the result, the request, the writer
    and the dispatcher alone. *)
Theorem newAction_calling_convention :
  forall rs c rt p,
    Context.matched c = false ->
    lookup rs c = (Some rt, p) ->
    supported (Route.routeType rt) = true ->
    exists c1,
      Context.newAction rs c = Context.Ok tt c1
      /\ cache c1
         = (true, Some rt, p, Route.newAction rt,
            Some (prepared_args (Route.routeType rt) (Route.newAction rt)
                    (Context.ResponseWriter c) (Context.req c)))
      /\ Context.idx c1 = Context.idx c /\ Context.stage c1 = Context.stage c
      /\ Context.Result c1 = Context.Result c
      /\ Context.req c1 = Context.req c
      /\ Context.ResponseWriter c1 = Context.ResponseWriter c
      /\ Context.tan c1 = Context.tan c.
Proof.
  intros rs c rt p Hm Hl Hs.
  destruct (Route.routeType rt) eqn:Hty; try discriminate;
    (eexists; split; [break_newAction; reflexivity|]);
    unfold cache; simpl; repeat split.
Qed.

Lemma newAction_calling_convention_witness :
  let rt := Sample.mkRoute StructPtrRoute [] (RawOther "*main.Action") Sample.noMethod in
  let c := Sample.fresh (Sample.dispatcher [] Sample.renderError rt) "/foo/" in
  exists c1,
    Context.newAction Sample.removeStick c = Context.Ok tt c1
    /\ Context.callArgs c1 = Some [ElemV Sample.actionV]
    /\ Context.params c1 = Some [("id", "1")].
Proof.
  intros rt c.
  destruct (newAction_calling_convention Sample.removeStick c rt
              (Some [("id", "1")]) eq_refl eq_refl eq_refl)
    as (c1 & Hn & Hc & _).
  exists c1. split; [exact Hn|]. split.
  - exact (f_equal snd Hc).
  - exact (f_equal (fun x => snd (fst (fst x))) Hc).
Defined.

(** ** What the whole chain respects *)

Section ChainInvariant.

Variable rs : string -> string.
Variable R : Context.t -> Context.t -> Prop.
Hypothesis HR : respected rs R.

Lemma respects_bind :
  forall (A B : Type) (m : Context.M A) (k : A -> Context.M B),
    (forall c, R c (Context.final (m c))) ->
    (forall a c, R c (Context.final (k a c))) ->
    forall c, R c (Context.final (Context.bind m k c)).
Proof.
  intros A B m k Hm Hk c. unfold Context.bind. specialize (Hm c).
  destruct (m c) as [a c' | msg c' | c']; simpl in *; try exact Hm.
  exact (resp_trans rs R HR _ _ _ Hm (Hk a c')).
Qed.

Lemma respects_ret :
  forall (A : Type) (a : A) c, R c (Context.final (Context.ret a c)).
Proof. intros A a c. simpl. apply (resp_refl rs R HR). Qed.

Lemma respects_Body : forall c, R c (Context.final (Context.Body c)).
Proof.
  intros c. unfold Context.Body.
  destruct (ReadAll (Request.Body (Context.req c))) as [[body err] rd].
  destruct err as [e|]; simpl.
  - apply (resp_req rs R HR).
  - refine (resp_trans rs R HR _ _ _ (resp_req rs R HR _ c) _).
    refine (resp_trans rs R HR _ _ _ (resp_req rs R HR _ _) _).
    apply (resp_req rs R HR).
Qed.

Lemma respects_run :
  forall step p,
    (forall o c, R c (Context.final (step o c))) ->
    forall c, R c (Context.final (Context.run step p c)).
Proof.
  intros step p Hstep.
  induction p as [vs | o k IH | cond yes IHy no IHn]; intro c; simpl.
  - apply (resp_refl rs R HR).
  - apply (respects_bind _ _ _ _ (Hstep o) (fun _ => IH)).
  - destruct (cond (Context.view c)); [apply IHy | apply IHn].
Qed.

Lemma respects_calls :
  forall n o, chain_respects rs R n -> forall c, R c (Context.final (calls rs n o c)).
Proof.
  intros n o (Hinv & _ & Hnext & _ & Herr & Hun & Hnf & Hab).
  destruct o; unfold calls, Context.doOp.
  - exact Hnext.
  - apply Hab.
  - apply Hnf.
  - exact Hun.
  - exact Herr.
  - apply respects_bind; [|intros; apply respects_ret].
    apply respects_bind; [apply (resp_newAction rs R HR)|]. intros _.
    apply respects_bind; [intro c; apply (resp_refl rs R HR) | intros; apply respects_ret].
  - apply respects_bind; [|intros; apply respects_ret].
    apply respects_bind; [apply (resp_newAction rs R HR)|]. intros _.
    apply respects_bind; [intro c; apply (resp_refl rs R HR) | intros; apply respects_ret].
  - apply respects_bind; [|intros; apply respects_ret].
    apply respects_bind; [apply (resp_newAction rs R HR)|]. intros _.
    apply respects_bind; [intro c; apply (resp_refl rs R HR) | intros; apply respects_ret].
  - apply respects_bind; [apply respects_Body | intros; apply respects_ret].
  - intro c. simpl. apply (resp_Result rs R HR).
  - intro c. simpl. apply (resp_writer rs R HR).
  - intro c. simpl. apply (resp_refl rs R HR).
Qed.

Lemma respects_capture :
  forall rets c, R c (Context.final (capture rets c)).
Proof.
  intros rets c. unfold capture.
  destruct rets as [|r0 [|r1 [|r2 rest]]]; simpl;
    try apply (resp_refl rs R HR); try apply (resp_Result rs R HR).
  destruct (as_int (Interface r0)); simpl;
    [apply (resp_Result rs R HR) | apply (resp_refl rs R HR)].
Qed.

Lemma respects_callAction :
  forall n rt,
    (forall h c, R c (Context.final (Context.Handle rs n h c))) ->
    forall c, R c (Context.final (callAction rs n rt c)).
Proof.
  intros n rt Hh c. unfold callAction.
  destruct (Route.raw rt) as [fn | fn | | fn | fn | ty].
  - refine (resp_trans rs R HR _ _ _ (resp_emit rs R HR _ c) _).
    apply (respects_bind _ _ _ _ (Hh fn) (fun _ => respects_ret _ [])).
  - cbv zeta. simpl Context.req. simpl Context.ResponseWriter.
    destruct (fn (Context.req c) (Context.ResponseWriter c)) as [r w]. simpl.
    refine (resp_trans rs R HR _ _ _ (resp_emit rs R HR _ c) _).
    refine (resp_trans rs R HR _ _ _ (resp_req rs R HR r _) _).
    apply (resp_writer rs R HR).
  - simpl. apply (resp_emit rs R HR).
  - simpl. refine (resp_trans rs R HR _ _ _ (resp_emit rs R HR _ c) _).
    apply (resp_req rs R HR).
  - simpl. refine (resp_trans rs R HR _ _ _ (resp_emit rs R HR _ c) _).
    apply (resp_writer rs R HR).
  - refine (resp_trans rs R HR _ _ _ (resp_emit rs R HR _ c) _). apply Hh.
Qed.

Lemma respects_execute_resolved :
  forall n,
    chain_respects rs R n ->
    forall c, R c (Context.final (execute_resolved rs n c)).
Proof.
  intros n (Hinv & _ & _ & Hh & _ & _ & Hnf & _) c. unfold execute_resolved.
  destruct (negb (is_nil (Context.action c))).
  - destruct (Context.route c) as [rt|]; [|apply (resp_refl rs R HR)].
    destruct ((len (Route.handlers rt) >? 0) && (Context.stage c =? 0)).
    + refine (resp_trans rs R HR _ _ _ (resp_emit rs R HR _ c) _).
      refine (resp_trans rs R HR _ _ _ (resp_idx rs R HR 0 _) _).
      refine (resp_trans rs R HR _ _ _ (resp_stage rs R HR 1 _) _).
      apply Hinv.
    + apply (respects_bind _ _ _ _ (respects_callAction n rt Hh) respects_capture).
  - destruct (negb (Written (Context.ResponseWriter c))).
    + apply Hnf.
    + apply (resp_refl rs R HR).
Qed.

Lemma chain_respects_all : forall n, chain_respects rs R n.
Proof.
  induction n as [|n IH].
  - unfold chain_respects. simpl.
    refine (conj _ (conj _ (conj _ (conj _ (conj _ (conj _ (conj _ _)))))));
      intros; apply (resp_refl rs R HR).
  - pose proof IH as (Hinv & Hex & Hnext & Hh & Herr & Hun & Hnf & Hab).
    unfold chain_respects.
    refine (conj _ (conj _ (conj _ (conj _ (conj _ (conj _ (conj _ _))))))).
    + intro c. rewrite invoke_S.
      destruct (Context.stage c =? 0).
      * destruct (Context.idx c <? len (Tango.handlers (Context.tan c))).
        -- destruct (index _ _) as [h|]; [|apply (resp_refl rs R HR)].
           refine (resp_trans rs R HR _ _ _ (resp_emit rs R HR _ c) _).
           apply (respects_bind _ _ _ _ (Hh h) (fun _ => respects_ret _ tt)).
        -- apply Hex.
      * destruct (Context.stage c =? 1); [|apply (resp_refl rs R HR)].
        destruct (Context.route c) as [rt|]; [|apply (resp_refl rs R HR)].
        destruct (Context.idx c <? len (Route.handlers rt)).
        -- destruct (index _ _) as [h|]; [|apply (resp_refl rs R HR)].
           refine (resp_trans rs R HR _ _ _ (resp_emit rs R HR _ c) _).
           apply (respects_bind _ _ _ _ (Hh h) (fun _ => respects_ret _ tt)).
        -- apply Hex.
    + intro c. rewrite execute_S.
      apply (respects_bind _ _ _ _ (resp_newAction rs R HR)
               (fun _ => respects_execute_resolved n IH)).
    + intro c. rewrite Next_S.
      refine (resp_trans rs R HR _ _ _ (resp_idx rs R HR _ c) _). apply Hinv.
    + intros h c. rewrite Handle_S. apply respects_run.
      intros o c'. apply respects_calls. exact IH.
    + intro c. rewrite HandleError_S.
      refine (resp_trans rs R HR _ _ _ (resp_emit rs R HR _ c) _).
      apply (respects_bind _ _ _ _ (Hh _) (fun _ => respects_ret _ tt)).
    + rewrite Unauthorized_S. apply Hab.
    + intros message. rewrite NotFound_S. destruct message; apply Hab.
    + intros status body c. rewrite Abort_S.
      refine (resp_trans rs R HR _ _ _ (resp_Result rs R HR _ c) _). apply Herr.
Qed.

End ChainInvariant.

Lemma newAction_log_grows :
  forall rs c,
    exists l,
      Context.log (Context.final (Context.newAction rs c)) = Context.log c ++ l.
Proof.
  intros rs c. unfold Context.newAction.
  destruct (Context.matched c); simpl.
  - exists []. rewrite app_nil_r. reflexivity.
  - destruct (Tango.Match _ _ _) as [[rt|] p]; simpl.
    + destruct (Route.routeType rt); simpl; rewrite <- app_assoc;
        eexists; reflexivity.
    + eexists. reflexivity.
Qed.

Lemma newAction_owner :
  forall rs c,
    Context.tan (Context.final (Context.newAction rs c)) = Context.tan c
    /\ Context.Logger (Context.final (Context.newAction rs c)) = Context.Logger c.
Proof.
  intros rs c. unfold Context.newAction.
  destruct (Context.matched c); simpl; [split; reflexivity|].
  destruct (Tango.Match _ _ _) as [[rt|] p]; simpl; [|split; reflexivity].
  destruct (Route.routeType rt); simpl; split; reflexivity.
Qed.

Lemma same_owner_respected : forall rs, respected rs same_owner.
Proof.
  intro rs. unfold same_owner. constructor.
  - intro c. repeat split. exists []. rewrite app_nil_r. reflexivity.
  - intros c1 c2 c3 (Ht1 & Hl1 & l1 & Hg1) (Ht2 & Hl2 & l2 & Hg2).
    repeat split; try congruence.
    exists (l1 ++ l2). rewrite Hg2, Hg1, app_assoc. reflexivity.
  - intros e c. simpl. repeat split. eexists. reflexivity.
  - intros v c. simpl. repeat split. exists []. rewrite app_nil_r. reflexivity.
  - intros v c. simpl. repeat split. exists []. rewrite app_nil_r. reflexivity.
  - intros v c. simpl. repeat split. exists []. rewrite app_nil_r. reflexivity.
  - intros v c. simpl. repeat split. exists []. rewrite app_nil_r. reflexivity.
  - intros v c. simpl. repeat split. exists []. rewrite app_nil_r. reflexivity.
  - intro c. destruct (newAction_owner rs c) as [Ht Hl].
    split; [exact Ht|]. split; [exact Hl|]. apply newAction_log_grows.
Qed.

Lemma cache_frozen_respected : forall rs, respected rs cache_frozen.
Proof.
  intro rs. unfold cache_frozen, cache. constructor;
    try (intros; simpl; reflexivity).
  - intros c1 c2 c3 H12 H23 Hm.
    specialize (H12 Hm). rewrite <- H12. apply H23.
    rewrite <- Hm. exact (f_equal (fun x => fst (fst (fst (fst x)))) H12).
  - intros c Hm. rewrite (newAction_matched_noop rs c Hm). reflexivity.
Qed.




(** ** One link of the chain *)

Lemma index_Some_lt :
  forall (A : Type) (l : list A) i x,
    index l i = Some x -> (i <? len l) = true /\ 0 <= i.
Proof.
  intros A l i x H. unfold index in H.
  destruct (0 <=? i) eqn:H0; [|discriminate].
  destruct (i <? len l) eqn:Hl; [|discriminate].
  split; [reflexivity | apply Z.leb_le; exact H0].
Qed.

(** [invoke] calls the handler under the cursor. *)
Lemma invoke_current_handler :
  forall rs n c ev h,
    current_handler c = Some (ev, h) ->
    Context.invoke rs (S n) c
    = (Context.Handle rs n h ;;; Context.ret tt) (Context.emit ev c).
Proof.
  intros rs n c ev h H. unfold current_handler in H. rewrite invoke_S.
  destruct (Context.stage c =? 0).
  - destruct (index _ _) as [h'|] eqn:Hi; [|discriminate].
    inversion H; subst. rewrite (proj1 (index_Some_lt _ _ _ _ Hi)). reflexivity.
  - destruct (Context.stage c =? 1); [|discriminate].
    destruct (Context.route c) as [rt|]; [|discriminate].
    destruct (index _ _) as [h'|] eqn:Hi; [|discriminate].
    inversion H; subst. rewrite (proj1 (index_Some_lt _ _ _ _ Hi)). reflexivity.
Qed.

Lemma current_handler_event :
  forall c ev h,
    current_handler c = Some (ev, h) ->
    ev = EvGlobal (Context.idx c) \/ ev = EvLocal (Context.idx c).
Proof.
  intros c ev h H. unfold current_handler in H.
  destruct (Context.stage c =? 0).
  - destruct (index _ _); inversion H. left. reflexivity.
  - destruct (Context.stage c =? 1); [|discriminate].
    destruct (Context.route c) as [rt|]; [|discriminate].
    destruct (index _ _); inversion H. right. reflexivity.
Qed.

(** X9: a middleware that only renders and returns without calling [Next]
    ends the request there, at either stage: [invoke] returns, the log gains
    the call of that middleware and nothing else (no later link, no action,
    no error handler), and cursor, result and resolution cache are as they
    were: a request not yet resolved stays unresolved. *)
Theorem rendering_middleware_ends_request :
  forall rs n c ev h,
    current_handler c = Some (ev, h) ->
    renders h = true ->
    exists c',
      Context.invoke rs (S (S n)) c = Context.Ok tt c'
      /\ Context.log c' = Context.log c ++ [ev]
      /\ (ev = EvGlobal (Context.idx c) \/ ev = EvLocal (Context.idx c))
      /\ Context.idx c' = Context.idx c /\ Context.stage c' = Context.stage c
      /\ Context.Result c' = Context.Result c
      /\ cache c' = cache c.
Proof.
  intros rs n c ev h Hcur Hr.
  rewrite (invoke_current_handler rs _ c ev h Hcur).
  destruct (Handle_renders rs n h (Context.emit ev c) Hr) as (vs & c' & Hrun & Hio).
  exists c'. unfold Context.bind. rewrite Hrun.
  destruct (same_but_io_fields _ _ Hio)
    as (_ & _ & Hi & Hs & Hro & Hp & Hca & Hm & Ha & Hre & Hlog).
  simpl in *. split; [reflexivity|]. split; [exact Hlog|].
  split; [exact (current_handler_event c ev h Hcur)|].
  unfold cache. rewrite Hm, Hro, Hp, Ha, Hca. repeat split; assumption.
Qed.

Lemma rendering_middleware_ends_request_witness :
  let hello := Do (CallWrite [x68; x69]) (Return []) in
  let rt := Sample.mkRoute FuncRoute [] RawFunc Sample.noMethod in
  let c := Sample.fresh (Sample.dispatcher [hello; pass] Sample.renderError rt) "/foo" in
  exists c',
    Context.invoke Sample.removeStick 2 c = Context.Ok tt c'
    /\ Context.log c' = [EvGlobal 0]
    /\ Context.matched c' = false.
Proof.
  intros hello rt c.
  destruct (rendering_middleware_ends_request Sample.removeStick 0 c
              (EvGlobal 0) hello eq_refl eq_refl)
    as (c' & Hinv & Hlog & _ & _ & _ & _ & Hc).
  exists c'. split; [exact Hinv|]. split; [exact Hlog|].
  exact (f_equal (fun x => fst (fst (fst (fst x)))) Hc).
Defined.

Lemma drop_returns :
  forall (m : Context.M unit) (vs : list Value) c,
    ((m ;;; Context.ret vs) ;;; Context.ret tt) c = m c.
Proof.
  intros m vs c. unfold Context.bind, Context.ret.
  destruct (m c) as [[] c' | |]; reflexivity.
Qed.

(** A link that only calls [Next] hands over to the next link. *)
Lemma invoke_pass :
  forall rs n c ev,
    current_handler c = Some (ev, pass) ->
    Context.invoke rs (S (S (S n))) c
    = Context.invoke rs n
        (Context.with_idx (int_add (Context.idx c) 1) (Context.emit ev c)).
Proof.
  intros rs n c ev Hcur.
  rewrite (invoke_current_handler rs _ c ev pass Hcur).
  rewrite Handle_S. unfold pass.
  change (Context.run (calls rs (S n)) (Do CallNext (Return [])))
    with (Context.Next rs (S n) ;;; Context.ret (@nil Value)).
  rewrite drop_returns. rewrite Next_S. reflexivity.
Qed.

Lemma calls_Action :
  forall rs n c,
    calls rs n CallAction c
    = match Context.newAction rs c with
      | Context.Ok _ c1 => Context.Ok tt c1
      | Context.Panicked msg c1 => Context.Panicked msg c1
      | Context.OutOfFuel c1 => Context.OutOfFuel c1
      end.
Proof.
  intros rs n c. unfold calls, Context.doOp, Context.Action, Context.bind.
  destruct (Context.newAction rs c); reflexivity.
Qed.



(** ** The order of a whole chain *)

Lemma int_add_one :
  forall i, min_int <= i -> i + 1 <= max_int -> int_add i 1 = i + 1.
Proof.
  intros i Hlo Hhi. unfold int_add. cbv zeta.
  destruct (i + 1 >? max_int) eqn:H1; [apply Z.gtb_lt in H1; lia|].
  destruct (i + 1 <? min_int) eqn:H2; [apply Z.ltb_lt in H2; lia|].
  reflexivity.
Qed.

Lemma walk_frame :
  forall mk k c,
    Context.tan (walk mk k c) = Context.tan c
    /\ Context.stage (walk mk k c) = Context.stage c
    /\ cache (walk mk k c) = cache c
    /\ Context.Result (walk mk k c) = Context.Result c
    /\ Context.req (walk mk k c) = Context.req c
    /\ Context.ResponseWriter (walk mk k c) = Context.ResponseWriter c.
Proof.
  intros mk k. induction k as [|k IH]; intro c; simpl.
  - repeat split.
  - destruct (IH (Context.with_idx (int_add (Context.idx c) 1)
                    (Context.emit (mk (Context.idx c)) c)))
      as (Ht & Hs & Hc & Hr & Hq & Hw).
    rewrite Ht, Hs, Hc, Hr, Hq, Hw. repeat split.
Qed.

Lemma walk_cursor :
  forall mk k c,
    0 <= Context.idx c ->
    Context.idx c + Z.of_nat k <= max_int ->
    Context.idx (walk mk k c) = Context.idx c + Z.of_nat k
    /\ Context.log (walk mk k c) = Context.log c ++ map mk (zseq (Context.idx c) k).
Proof.
  intros mk k. induction k as [|k IH]; intros c H0 Hmax.
  - simpl. rewrite Z.add_0_r, app_nil_r. split; reflexivity.
  - assert (Hstep : int_add (Context.idx c) 1 = Context.idx c + 1)
      by (apply int_add_one; unfold min_int; lia).
    cbn [walk zseq map].
    destruct (IH (Context.with_idx (int_add (Context.idx c) 1)
                    (Context.emit (mk (Context.idx c)) c))) as [Hi Hl].
    + simpl. lia.
    + simpl. lia.
    + rewrite Hi, Hl. simpl. rewrite Hstep, <- app_assoc. split; [lia | reflexivity].
Qed.

(** [k] passing links in a row use up three units of budget each. *)
Lemma invoke_walk :
  forall rs mk k c n,
    (forall j, (j < k)%nat ->
               current_handler (walk mk j c)
               = Some (mk (Context.idx (walk mk j c)), pass)) ->
    Context.invoke rs (3 * k + n) c = Context.invoke rs n (walk mk k c).
Proof.
  intros rs mk k. induction k as [|k IH]; intros c n H.
  - reflexivity.
  - replace (3 * S k + n)%nat with (S (S (S (3 * k + n)))) by lia.
    rewrite (invoke_pass rs _ c (mk (Context.idx c)) (H O ltac:(lia))).
    cbn [walk]. apply IH. intros j Hj. exact (H (S j) ltac:(lia)).
Qed.

Lemma index_repeat :
  forall (A : Type) (x : A) k i,
    0 <= i < Z.of_nat k -> index (repeat x k) i = Some x.
Proof.
  intros A x k i Hi. unfold index, len. rewrite repeat_length.
  destruct (0 <=? i) eqn:H0; [|apply Z.leb_gt in H0; lia].
  destruct (i <? Z.of_nat k) eqn:H1; [|apply Z.ltb_ge in H1; lia].
  simpl. destruct (nth_error (repeat x k) (Z.to_nat i)) as [y|] eqn:Hn.
  - apply nth_error_In in Hn. apply repeat_spec in Hn. subst y. reflexivity.
  - apply nth_error_None in Hn. rewrite repeat_length in Hn. lia.
Qed.

Lemma newAction_supported :
  forall rs c rt p,
    Context.matched c = false ->
    lookup rs c = (Some rt, p) ->
    supported (Route.routeType rt) = true ->
    Context.newAction rs c = Context.Ok tt (resolved_ctx rs rt p c).
Proof.
  intros rs c rt p Hm Hl Hs. unfold resolved_ctx.
  destruct (Route.routeType rt) eqn:Hty; try discriminate;
    break_newAction; reflexivity.
Qed.

Lemma walk_globals :
  forall rs g c n,
    Context.stage c = 0 ->
    Context.idx c = 0 ->
    Tango.handlers (Context.tan c) = repeat pass g ->
    Z.of_nat g <= max_int ->
    Context.invoke rs (3 * g + n) c = Context.invoke rs n (walk EvGlobal g c).
Proof.
  intros rs g c n Hs Hi Hh Hmax. apply invoke_walk. intros j Hj.
  destruct (walk_frame EvGlobal j c) as (Ht & Hst & _).
  destruct (walk_cursor EvGlobal j c) as [Hidx _]; [lia | lia |].
  unfold current_handler. rewrite Hst, Hs, Ht, Hh. simpl.
  rewrite index_repeat; [reflexivity | lia].
Qed.

Lemma walk_locals :
  forall rs l c rt n,
    Context.stage c = 1 ->
    Context.idx c = 0 ->
    Context.route c = Some rt ->
    Route.handlers rt = repeat pass l ->
    Z.of_nat l <= max_int ->
    Context.invoke rs (3 * l + n) c = Context.invoke rs n (walk EvLocal l c).
Proof.
  intros rs l c rt n Hs Hi Hr Hh Hmax. apply invoke_walk. intros j Hj.
  destruct (walk_frame EvLocal j c) as (Ht & Hst & Hc & _).
  destruct (walk_cursor EvLocal j c) as [Hidx _]; [lia | lia |].
  assert (Hr' : Context.route (walk EvLocal j c) = Some rt).
  { rewrite <- Hr. exact (f_equal (fun x => snd (fst (fst (fst x)))) Hc). }
  unfold current_handler. rewrite Hst, Hs, Hr', Hh. simpl.
  rewrite index_repeat; [reflexivity | lia].
Qed.

(** [invoke] with the cursor at the end of the current stage is [execute]. *)
Lemma invoke_at_end :
  forall rs n c,
    (Context.stage c = 0 /\ Context.idx c = len (Tango.handlers (Context.tan c)))
    \/ (Context.stage c = 1
        /\ exists rt, Context.route c = Some rt
                      /\ Context.idx c = len (Route.handlers rt)) ->
    Context.invoke rs (S n) c = Context.execute rs n c.
Proof.
  intros rs n c [[Hs Hi] | (Hs & rt & Hr & Hi)]; rewrite invoke_S, Hs; simpl.
  - rewrite Hi, Z.ltb_irrefl. reflexivity.
  - rewrite Hr, Hi, Z.ltb_irrefl. reflexivity.
Qed.

Lemma len_repeat :
  forall (A : Type) (x : A) k, len (repeat x k) = Z.of_nat k.
Proof. intros A x k. unfold len. rewrite repeat_length. reflexivity. Qed.

Lemma execute_resolved_call :
  forall rs n c rt,
    is_nil (Context.action c) = false ->
    Context.route c = Some rt ->
    (len (Route.handlers rt) >? 0) && (Context.stage c =? 0) = false ->
    execute_resolved rs n c = (rets <- callAction rs n rt ;; capture rets) c.
Proof.
  intros rs n c rt Ha Hr Hs. unfold execute_resolved. rewrite Ha, Hr, Hs.
  reflexivity.
Qed.

Lemma execute_resolved_switch :
  forall rs n c rt,
    is_nil (Context.action c) = false ->
    Context.route c = Some rt ->
    (len (Route.handlers rt) >? 0) && (Context.stage c =? 0) = true ->
    execute_resolved rs n c
    = Context.invoke rs n
        (Context.with_stage 1
           (Context.with_idx 0 (Context.emit (EvStage (Context.idx c)) c))).
Proof.
  intros rs n c rt Ha Hr Hs. unfold execute_resolved. rewrite Ha, Hr, Hs.
  reflexivity.
Qed.

(** X11: when every global and every route handler only calls [Next], a
    request that matches a route of a supported kind reaches its action after
    each global handler has run once, in order, then resolution, then (if the
    route has handlers) the stage switch and each route handler once, in
    order, and nothing else.  The action is then called on the resolved
    context, with result, request and writer untouched by the middleware. *)
Theorem passing_middleware_runs_in_order :
  forall rs g l c rt p,
    Context.stage c = 0 ->
    Context.idx c = 0 ->
    Context.matched c = false ->
    Tango.handlers (Context.tan c) = repeat pass g ->
    lookup rs c = (Some rt, p) ->
    Route.handlers rt = repeat pass l ->
    supported (Route.routeType rt) = true ->
    is_nil (Route.newAction rt) = false ->
    Z.of_nat g <= max_int ->
    Z.of_nat l <= max_int ->
    let c_end := after_middleware rs rt p g l c in
    (forall n,
        Context.invoke rs (middleware_budget g l + n) c
        = (rets <- callAction rs n rt ;; capture rets) c_end)
    /\ Context.log c_end = Context.log c ++ middleware_log rs g l c
    /\ cache c_end
       = (true, Some rt, p, Route.newAction rt,
          Some (prepared_args (Route.routeType rt) (Route.newAction rt)
                  (Context.ResponseWriter c) (Context.req c)))
    /\ Context.Result c_end = Context.Result c
    /\ Context.req c_end = Context.req c
    /\ Context.ResponseWriter c_end = Context.ResponseWriter c.
Proof.
  intros rs g l c rt p Hs Hi Hm Hg Hl Hrl Hsup Hact Hgmax Hlmax c_end.
  set (cg := walk EvGlobal g c).
  set (c1 := resolved_ctx rs rt p cg).
  destruct (walk_frame EvGlobal g c) as (Htg & Hsg & Hcg & Hrg & Hqg & Hwg).
  destruct (walk_cursor EvGlobal g c) as [Hig Hlg]; [lia | lia |].
  fold cg in Htg, Hsg, Hcg, Hrg, Hqg, Hwg, Hig, Hlg.
  rewrite Hi in Hig, Hlg. simpl in Hig.
  assert (Hmg : Context.matched cg = false).
  { rewrite <- Hm. exact (f_equal (fun x => fst (fst (fst (fst x)))) Hcg). }
  assert (Hlk : lookup rs cg = (Some rt, p)).
  { unfold lookup, Context.Req in *. rewrite Htg, Hqg. exact Hl. }
  assert (Hn1 : Context.newAction rs cg = Context.Ok tt c1)
    by exact (newAction_supported rs cg rt p Hmg Hlk Hsup).
  (* the global stage, then [execute] *)
  assert (Hglob : forall n,
             Context.invoke rs (3 * g + S (S n)) c = execute_resolved rs n c1).
  { intro n. rewrite (walk_globals rs g c _ Hs Hi Hg Hgmax). fold cg.
    rewrite invoke_at_end.
    - rewrite execute_S. unfold Context.bind. rewrite Hn1. reflexivity.
    - left. rewrite Hsg, Htg, Hg, len_repeat. split; [exact Hs | exact Hig]. }
  assert (Hlog1 : Context.log c1
                  = Context.log c ++ map EvGlobal (zseq 0 g)
                    ++ [EvMatch (rs (Request.URL_Path (Context.Req c)))
                                (Request.Method (Context.Req c)); EvNewAction]).
  { unfold c1, resolved_ctx, Context.Req. simpl. rewrite Hlg, Hqg.
    rewrite <- !app_assoc. reflexivity. }
  destruct l as [|l'].
  - (* no route handler: the action is called at once *)
    assert (Hend : c_end = c1) by reflexivity. rewrite Hend.
    split; [|split; [|split; [|split; [|split]]]].
    + intro n. unfold middleware_budget.
      replace (3 * g + 2 + n)%nat with (3 * g + S (S n))%nat by lia.
      rewrite Hglob.
      apply (execute_resolved_call rs n c1 rt Hact eq_refl).
      rewrite Hrl. reflexivity.
    + rewrite Hlog1. unfold middleware_log. rewrite app_nil_r. reflexivity.
    + unfold cache, c1, resolved_ctx. simpl. rewrite Hwg, Hqg. reflexivity.
    + unfold c1, resolved_ctx. simpl. exact Hrg.
    + unfold c1, resolved_ctx. simpl. exact Hqg.
    + unfold c1, resolved_ctx. simpl. exact Hwg.
  - (* the route stage *)
    set (c2 := Context.with_stage 1
                 (Context.with_idx 0 (Context.emit (EvStage (Context.idx c1)) c1))).
    assert (Hend : c_end = walk EvLocal (S l') c2) by reflexivity.
    destruct (walk_frame EvLocal (S l') c2) as (Ht3 & Hs3 & Hc3 & Hr3 & Hq3 & Hw3).
    destruct (walk_cursor EvLocal (S l') c2) as [Hi3 Hl3];
      [simpl Context.idx; lia | simpl Context.idx; lia |].
    rewrite <- Hend in Ht3, Hs3, Hc3, Hr3, Hq3, Hw3, Hi3, Hl3.
    assert (Hcache2 : cache c2
                      = (true, Some rt, p, Route.newAction rt,
                         Some (prepared_args (Route.routeType rt) (Route.newAction rt)
                                 (Context.ResponseWriter c) (Context.req c)))).
    { unfold cache, c2, c1, resolved_ctx. simpl. rewrite Hwg, Hqg. reflexivity. }
    rewrite Hcache2 in Hc3.
    split; [|split; [|split; [|split; [|split]]]].
    + intro n. unfold middleware_budget.
      replace (3 * g + 2 + (3 * S l' + 2) + n)%nat
        with (3 * g + S (S (3 * S l' + S (S n))))%nat by lia.
      rewrite Hglob.
      assert (Hsw : (len (Route.handlers rt) >? 0) && (Context.stage c1 =? 0) = true).
      { change (Context.stage c1) with (Context.stage cg).
        rewrite Hsg, Hs, Hrl, len_repeat. simpl (0 =? 0). rewrite andb_true_r.
        apply Z.gtb_lt. lia. }
      rewrite (execute_resolved_switch rs _ c1 rt Hact eq_refl Hsw). fold c2.
      rewrite (walk_locals rs (S l') c2 rt _ eq_refl eq_refl eq_refl Hrl Hlmax).
      rewrite <- Hend.
      rewrite invoke_at_end.
      * rewrite execute_S. unfold Context.bind.
        rewrite (newAction_matched_noop rs c_end
                   (f_equal (fun x => fst (fst (fst (fst x)))) Hc3)).
        apply (execute_resolved_call rs n c_end rt).
        -- rewrite (f_equal (fun x => snd (fst x)) Hc3 : Context.action c_end = _).
           exact Hact.
        -- exact (f_equal (fun x => snd (fst (fst (fst x)))) Hc3).
        -- rewrite Hs3. simpl (Context.stage c2). apply andb_false_r.
      * right. split; [rewrite Hs3; reflexivity|]. exists rt. split.
        -- exact (f_equal (fun x => snd (fst (fst (fst x)))) Hc3).
        -- rewrite Hi3, Hrl, len_repeat. simpl. lia.
    + rewrite Hl3.
      change (Context.log c2) with (Context.log c1 ++ [EvStage (Context.idx c1)]).
      change (Context.idx c2) with 0.
      rewrite Hlog1. unfold middleware_log.
      change (Context.idx c1) with (Context.idx cg). rewrite Hig.
      rewrite <- !app_assoc. reflexivity.
    + exact Hc3.
    + rewrite Hr3. unfold c2, c1, resolved_ctx. simpl. exact Hrg.
    + rewrite Hq3. unfold c2, c1, resolved_ctx. simpl. exact Hqg.
    + rewrite Hw3. unfold c2, c1, resolved_ctx. simpl. exact Hwg.
Qed.

Lemma passing_middleware_runs_in_order_witness :
  let rt := Sample.mkRoute StructRoute (repeat pass 2) (RawOther "main.Action")
              (fun _ => Return [StringV "done"]) in
  let c := Sample.fresh (Sample.dispatcher (repeat pass 3) Sample.renderError rt) "/foo/" in
  let c' := Context.final (Context.invoke Sample.removeStick 20 c) in
  Context.invoke Sample.removeStick 20 c = Context.Ok tt c'
  /\ Context.Result c' = StringV "done"
  /\ Context.log c'
     = [EvGlobal 0; EvGlobal 1; EvGlobal 2; EvMatch "/foo" "GET"; EvNewAction;
        EvStage 3; EvLocal 0; EvLocal 1; EvCall Reflective [Sample.actionV]].
Proof.
  intros rt c c'.
  destruct (passing_middleware_runs_in_order Sample.removeStick 3 2 c rt
              (Some [("id", "1")]) eq_refl eq_refl eq_refl eq_refl eq_refl
              eq_refl eq_refl eq_refl)
    as (Hrun & _).
  - unfold max_int. lia.
  - unfold max_int. lia.
  - assert (H : Context.invoke Sample.removeStick 20 c = Context.Ok tt c').
    { change 20%nat with (middleware_budget 3 2 + 1)%nat. rewrite Hrun.
      vm_compute. reflexivity. }
    split; [exact H|]. split; vm_compute; reflexivity.
Defined.

(** ** An action must not call [Next] *)

Lemma returned_bind_false :
  forall (A B : Type) (m : Context.M A) (k : A -> Context.M B) c,
    returned (m c) = false -> returned (Context.bind m k c) = false.
Proof.
  intros A B m k c H. unfold Context.bind.
  destruct (m c); [discriminate | reflexivity | reflexivity].
Qed.

Lemma len_nonneg : forall (A : Type) (l : list A), 0 <= len l.
Proof. intros A l. unfold len. lia. Qed.

Lemma action_calls_Next_moved :
  forall rt k c c',
    action_calls_Next rt k c ->
    cache c' = cache c ->
    Context.stage c' = Context.stage c ->
    Context.tan c' = Context.tan c ->
    action_calls_Next rt k c' /\ stage_len rt c' = stage_len rt c.
Proof.
  intros rt k c c' (Hm & Ha & Hr & Hraw & Hs) Hc Hst Ht.
  unfold action_calls_Next, stage_len. rewrite Hst, Ht.
  assert (Hm' := f_equal (fun x => fst (fst (fst (fst x)))) Hc).
  assert (Hr' := f_equal (fun x => snd (fst (fst (fst x)))) Hc).
  assert (Ha' := f_equal (fun x => snd (fst x)) Hc).
  simpl in Hm', Hr', Ha'. rewrite Hm', Hr', Ha'.
  repeat split; assumption.
Qed.

Lemma runaway_all :
  forall rs rt k n,
    (forall c, action_calls_Next rt k c ->
               stage_len rt c <= Context.idx c <= max_int ->
               returned (Context.execute rs n c) = false)
    /\ (forall c, action_calls_Next rt k c ->
                  stage_len rt c <= Context.idx c <= max_int ->
                  returned (Context.Handle rs n (Do CallNext k) c) = false)
    /\ (forall c, action_calls_Next rt k c ->
                  stage_len rt c <= Context.idx c <= max_int ->
                  returned (Context.Next rs n c) = false)
    /\ (forall c, action_calls_Next rt k c ->
                  Context.idx c < 0 \/ stage_len rt c <= Context.idx c <= max_int ->
                  returned (Context.invoke rs n c) = false).
Proof.
  intros rs rt k n. induction n as [|n (HE & HH & HN & HI)].
  - repeat split; intros; reflexivity.
  - refine (conj _ (conj _ (conj _ _))).
    + (* execute *)
      intros c Hinv Hidx. pose proof Hinv as (Hm & Ha & Hr & Hraw & Hs).
      rewrite execute_S. unfold Context.bind at 1.
      rewrite (newAction_matched_noop rs c Hm).
      rewrite (execute_resolved_call rs n c rt Ha Hr).
      * apply returned_bind_false. unfold callAction. rewrite Hraw.
        apply returned_bind_false.
        destruct (action_calls_Next_moved rt k c
                    (Context.emit (EvCall Direct [ContextV]) c) Hinv
                    eq_refl eq_refl eq_refl) as [Hinv' Hlen'].
        apply HH; [exact Hinv' | rewrite Hlen'; exact Hidx].
      * destruct Hs as [[Hs Hh] | Hs].
        -- rewrite Hh. reflexivity.
        -- rewrite Hs. apply andb_false_r.
    + (* the action *)
      intros c Hinv Hidx. rewrite Handle_S, run_Do.
      change (calls rs n CallNext) with (Context.Next rs n).
      specialize (HN c Hinv Hidx).
      destruct (Context.Next rs n c); [discriminate | reflexivity | reflexivity].
    + (* Next *)
      intros c Hinv Hidx. rewrite Next_S.
      destruct (action_calls_Next_moved rt k c
                  (Context.with_idx (int_add (Context.idx c) 1) c) Hinv
                  eq_refl eq_refl eq_refl) as [Hinv' Hlen'].
      apply HI; [exact Hinv'|]. rewrite Hlen'. simpl Context.idx.
      assert (H0 : 0 <= stage_len rt c)
        by (unfold stage_len; destruct (Context.stage c =? 0); apply len_nonneg).
      unfold int_add. cbv zeta.
      destruct (Context.idx c + 1 >? max_int) eqn:Hov.
      * left. apply Z.gtb_lt in Hov. unfold max_int in *. lia.
      * rewrite Z.gtb_ltb in Hov. apply Z.ltb_ge in Hov.
        destruct (Context.idx c + 1 <? min_int) eqn:Hun.
        -- apply Z.ltb_lt in Hun. unfold min_int in Hun. lia.
        -- right. lia.
    + (* invoke *)
      intros c Hinv Hidx. pose proof Hinv as (Hm & Ha & Hr & Hraw & Hs).
      rewrite invoke_S. unfold stage_len in Hidx.
      destruct Hs as [[Hs Hh] | Hs]; rewrite Hs in *; simpl in Hidx |- *.
      * destruct (Context.idx c <? len (Tango.handlers (Context.tan c))) eqn:Hlt.
        -- apply Z.ltb_lt in Hlt.
           destruct Hidx as [Hneg | Hidx]; [|lia].
           unfold index. replace (0 <=? Context.idx c) with false
             by (symmetry; apply Z.leb_gt; exact Hneg).
           reflexivity.
        -- apply Z.ltb_ge in Hlt.
           apply HE; [exact Hinv|]. unfold stage_len. rewrite Hs. simpl.
           pose proof (len_nonneg _ (Tango.handlers (Context.tan c))). lia.
      * rewrite Hr.
        destruct (Context.idx c <? len (Route.handlers rt)) eqn:Hlt.
        -- apply Z.ltb_lt in Hlt.
           destruct Hidx as [Hneg | Hidx]; [|lia].
           unfold index. replace (0 <=? Context.idx c) with false
             by (symmetry; apply Z.leb_gt; exact Hneg).
           reflexivity.
        -- apply Z.ltb_ge in Hlt.
           apply HE; [exact Hinv|]. unfold stage_len. rewrite Hs. simpl.
           pose proof (len_nonneg _ (Route.handlers rt)). lia.
Qed.

(** X12: "don't invoke this method on action": when the action of the
    resolved route is a function of the context that starts by calling
    [Next], the final invoker never comes back.  With any budget, [execute]
    (and [invoke] with the cursor at the end of the stage) ends out of budget
    or in a panic, never normally. *)
Theorem Next_in_action_never_returns :
  forall rs rt k n c,
    action_calls_Next rt k c ->
    stage_len rt c <= Context.idx c <= max_int ->
    returned (Context.execute rs n c) = false
    /\ returned (Context.invoke rs n c) = false.
Proof.
  intros rs rt k n c Hinv Hidx.
  destruct (runaway_all rs rt k n) as (HE & _ & _ & HI).
  split; [apply HE | apply HI]; try assumption. right. exact Hidx.
Qed.

Lemma Next_in_action_never_returns_witness :
  let rt := Sample.mkRoute FuncCtxRoute [] (RawCtx (Do CallNext (Return [])))
              Sample.noMethod in
  let c0 := Sample.fresh (Sample.dispatcher [] Sample.renderError rt) "/foo" in
  let c := Context.final (Context.newAction Sample.removeStick c0) in
  returned (Context.execute Sample.removeStick 100 c) = false
  /\ returned (Context.invoke Sample.removeStick 100 c) = false.
Proof.
  intros rt c0 c.
  apply (Next_in_action_never_returns Sample.removeStick rt (Return []) 100 c).
  - repeat split. left. split; reflexivity.
  - unfold max_int. vm_compute. split; discriminate.
Defined.

(** ** [Unauthorized], [NotFound] and the direct callables *)

(** X13: with an error handler that only renders, [Unauthorized()] ends
    with [Result = Abort(401, "Unauthorized")], and [NotFound(message...)]
    with [Result = Abort(404, m)], where [m] is the first message given, or
    "Not Found" when none is; further messages are ignored.  Each calls the
    error handler once and leaves the cursor and the resolution cache as
    they were. *)
Theorem Unauthorized_and_NotFound_abort :
  forall rs n c,
    renders (Tango.ErrHandler (Context.tan c)) = true ->
    (exists c',
        Context.Unauthorized rs (S (S (S (S n)))) c = Context.Ok tt c'
        /\ Context.Result c' = tango.Abort 401 "Unauthorized"
        /\ Context.log c' = Context.log c ++ [EvErr (tango.Abort 401 "Unauthorized")]
        /\ Context.idx c' = Context.idx c /\ Context.stage c' = Context.stage c
        /\ cache c' = cache c)
    /\ (forall message,
          exists c',
            Context.NotFound rs (S (S (S (S n)))) message c = Context.Ok tt c'
            /\ Context.Result c' = tango.Abort 404 (hd "Not Found" message)
            /\ Context.log c'
               = Context.log c ++ [EvErr (tango.Abort 404 (hd "Not Found" message))]
            /\ Context.idx c' = Context.idx c /\ Context.stage c' = Context.stage c
            /\ cache c' = cache c).
Proof.
  intros rs n c Hr.
  assert (Hab : forall status body,
             exists c',
               Context.Abort rs (S (S (S n))) status body c = Context.Ok tt c'
               /\ Context.Result c' = tango.Abort status body
               /\ Context.log c' = Context.log c ++ [EvErr (tango.Abort status body)]
               /\ Context.idx c' = Context.idx c /\ Context.stage c' = Context.stage c
               /\ cache c' = cache c).
  { intros status body.
    destruct (Abort_renders rs n status body c Hr) as (c' & Hab & Hio).
    exists c'. split; [exact Hab|].
    destruct (same_but_io_fields _ _ Hio)
      as (_ & _ & Hi & Hs & Hro & Hp & Hca & Hm & Ha & Hre & Hlog).
    simpl in *. unfold cache. rewrite Hm, Hro, Hp, Ha, Hca.
    repeat split; assumption. }
  split.
  - rewrite Unauthorized_S. apply Hab.
  - intro message. rewrite NotFound_S. destruct message as [|m0 rest]; apply Hab.
Qed.

Lemma Unauthorized_and_NotFound_abort_witness :
  let rt := Sample.mkRoute FuncRoute [] RawFunc Sample.noMethod in
  let c := Sample.fresh (Sample.dispatcher [] Sample.renderError rt) "/foo" in
  exists c',
    Context.NotFound Sample.removeStick 4 ["gone"; "ignored"] c = Context.Ok tt c'
    /\ Context.Result c' = tango.Abort 404 "gone".
Proof.
  intros rt c.
  destruct (proj2 (Unauthorized_and_NotFound_abort Sample.removeStick 0 c eq_refl)
              ["gone"; "ignored"])
    as (c' & H & Hres & _).
  exists c'. split; assumption.
Defined.



(** ** The route is never dereferenced when nil *)

Lemma well_resolved_same :
  forall c c',
    well_resolved c ->
    cache c' = cache c ->
    Context.stage c' = Context.stage c ->
    well_resolved c'.
Proof.
  intros c c' [[Ha Hs] Hm] Hc Hst.
  assert (Hm' := f_equal (fun x => fst (fst (fst (fst x)))) Hc).
  assert (Hr' := f_equal (fun x => snd (fst (fst (fst x)))) Hc).
  assert (Ha' := f_equal (fun x => snd (fst x)) Hc).
  simpl in Hm', Hr', Ha'.
  unfold well_resolved, route_present. rewrite Hm', Hr', Ha', Hst.
  split; [split|]; assumption.
Qed.

Lemma sound_ret : forall (A : Type) (a : A), sound (Context.ret a).
Proof. intros A a c H. exact H. Qed.

Lemma sound_bind :
  forall (A B : Type) (m : Context.M A) (k : A -> Context.M B),
    sound m -> (forall a, sound (k a)) -> sound (Context.bind m k).
Proof.
  intros A B m k Hm Hk c Hc. unfold Context.bind. specialize (Hm c Hc).
  destruct (m c) as [a c' | msg c' | c']; try exact Hm.
  exact (Hk a c' Hm).
Qed.

Lemma sound_modify :
  forall f,
    (forall c, cache (f c) = cache c /\ Context.stage (f c) = Context.stage c) ->
    sound (Context.modify f).
Proof.
  intros f Hf c Hc. simpl. destruct (Hf c) as [H1 H2].
  exact (well_resolved_same c (f c) Hc H1 H2).
Qed.

(** A computation run after an update that touches neither the cache nor
    the stage. *)
Lemma sound_after :
  forall (A : Type) (m : Context.M A) (f : Context.t -> Context.t),
    sound m ->
    (forall c, cache (f c) = cache c /\ Context.stage (f c) = Context.stage c) ->
    sound (fun c => m (f c)).
Proof.
  intros A m f Hm Hf c Hc. apply Hm. destruct (Hf c) as [H1 H2].
  exact (well_resolved_same c (f c) Hc H1 H2).
Qed.

Lemma sound_newAction : forall rs, sound (Context.newAction rs).
Proof.
  intros rs c [[Ha Hs] Hm]. unfold Context.newAction.
  destruct (Context.matched c) eqn:Hmc; simpl.
  - split; [split|]; try assumption. intro H. rewrite Hmc in H. discriminate.
  - destruct (Hm eq_refl) as [Hnil Hst].
    destruct (Tango.Match _ _ _) as [[rt|] p]; simpl.
    + destruct (Route.routeType rt); simpl;
        unfold well_resolved, route_present; simpl;
        repeat split; intros; discriminate.
    + unfold well_resolved, route_present. simpl.
      split; [split|].
      * intro H. rewrite Hnil in H. discriminate.
      * intro H1. contradiction.
      * intro H. discriminate.
Qed.

Lemma sound_Body : sound Context.Body.
Proof.
  intros c Hc.
  pose proof (Body_same_but_io c) as Hio.
  destruct (Body_not_stuck c) as (r & c1 & Hb). rewrite Hb in *. simpl in Hio.
  destruct (same_but_io_fields _ _ Hio)
    as (_ & _ & _ & Hs & Hro & Hp & Hca & Hm & Ha & _ & _).
  apply (well_resolved_same c c1 Hc); [|exact Hs].
  unfold cache. rewrite Hm, Hro, Hp, Ha, Hca. reflexivity.
Qed.

Lemma sound_run :
  forall step p, (forall o, sound (step o)) -> sound (Context.run step p).
Proof.
  intros step p Hstep.
  induction p as [vs | o k IH | cond yes IHy no IHn]; simpl.
  - apply sound_ret.
  - apply sound_bind; [apply Hstep | intros _; exact IH].
  - intros c Hc. destruct (cond (Context.view c)); [apply IHy | apply IHn]; exact Hc.
Qed.

Lemma sound_get : sound Context.get.
Proof. intros c H. exact H. Qed.

Lemma sound_panic : forall (A : Type) msg, sound (@Context.panic A msg).
Proof. intros A msg c H. exact (proj1 H). Qed.

Lemma sound_calls : forall rs n o, chain_sound rs n -> sound (calls rs n o).
Proof.
  intros rs n o (Hinv & _ & Hnext & _ & Herr & Hun & Hnf & Hab).
  destruct o; unfold calls, Context.doOp.
  - exact Hnext.
  - apply Hab.
  - apply Hnf.
  - exact Hun.
  - exact Herr.
  - apply sound_bind; [|intros _; apply sound_ret].
    apply sound_bind; [apply sound_newAction|]. intros _.
    apply sound_bind; [apply sound_get | intro; apply sound_ret].
  - apply sound_bind; [|intros _; apply sound_ret].
    apply sound_bind; [apply sound_newAction|]. intros _.
    apply sound_bind; [apply sound_get | intro; apply sound_ret].
  - apply sound_bind; [|intros _; apply sound_ret].
    apply sound_bind; [apply sound_newAction|]. intros _.
    apply sound_bind; [apply sound_get | intro; apply sound_ret].
  - apply sound_bind; [apply sound_Body | intros _; apply sound_ret].
  - apply sound_modify. intro c. split; reflexivity.
  - apply sound_modify. intro c. split; reflexivity.
  - apply sound_panic.
Qed.

Lemma sound_capture : forall rets, sound (capture rets).
Proof.
  intros rets. unfold capture.
  destruct rets as [|r0 [|r1 [|r2 rest]]].
  - apply sound_ret.
  - apply sound_modify. intro c0. split; reflexivity.
  - destruct (as_int (Interface r0)).
    + apply sound_modify. intro c0. split; reflexivity.
    + apply sound_ret.
  - apply sound_ret.
Qed.

Lemma sound_callAction :
  forall rs n rt,
    (forall h, sound (Context.Handle rs n h)) -> sound (callAction rs n rt).
Proof.
  intros rs n rt Hh. unfold callAction.
  destruct (Route.raw rt) as [fn | fn | | fn | fn | ty].
  - apply (sound_after _ (Context.Handle rs n fn ;;; Context.ret [])
             (Context.emit (EvCall Direct [ContextV]))).
    + apply sound_bind; [apply Hh | intros _; apply sound_ret].
    + intro c. split; reflexivity.
  - intros c Hc. cbv zeta. simpl Context.req. simpl Context.ResponseWriter.
    destruct (fn (Context.req c) (Context.ResponseWriter c)) as [r w].
    apply (well_resolved_same c); [exact Hc | reflexivity | reflexivity].
  - intros c Hc.
    apply (well_resolved_same c); [exact Hc | reflexivity | reflexivity].
  - intros c Hc.
    apply (well_resolved_same c); [exact Hc | reflexivity | reflexivity].
  - intros c Hc.
    apply (well_resolved_same c); [exact Hc | reflexivity | reflexivity].
  - intros c Hc. apply Hh.
    apply (well_resolved_same c); [exact Hc | reflexivity | reflexivity].
Qed.

Lemma sound_execute_resolved :
  forall rs n, chain_sound rs n -> sound (execute_resolved rs n).
Proof.
  intros rs n (Hinv & _ & _ & Hh & _ & _ & Hnf & _) c Hc.
  unfold execute_resolved.
  destruct (is_nil (Context.action c)) eqn:Ha; simpl.
  - destruct (negb (Written (Context.ResponseWriter c))).
    + apply Hnf. exact Hc.
    + exact Hc.
  - destruct (Context.route c) as [rt|] eqn:Hr.
    + destruct ((len (Route.handlers rt) >? 0) && (Context.stage c =? 0)).
      * apply Hinv. destruct Hc as [[Hra Hrs] Hm].
        unfold well_resolved, route_present. simpl. rewrite Hr.
        split; [split; intros; discriminate|].
        intro Hmf. destruct (Hm Hmf) as [Hnil _]. rewrite Hnil in Ha. discriminate.
      * apply (sound_bind _ _ _ _ (sound_callAction rs n rt Hh) sound_capture).
        exact Hc.
    + exfalso. exact (proj1 (proj1 Hc) Ha Hr).
Qed.

Lemma chain_sound_all : forall rs n, chain_sound rs n.
Proof.
  intros rs n. induction n as [|n IH].
  - unfold chain_sound, sound. simpl.
    refine (conj _ (conj _ (conj _ (conj _ (conj _ (conj _ (conj _ _)))))));
      intros; match goal with H : well_resolved _ |- _ => exact (proj1 H) end.
  - pose proof IH as (Hinv & Hex & Hnext & Hh & Herr & Hun & Hnf & Hab).
    unfold chain_sound.
    refine (conj _ (conj _ (conj _ (conj _ (conj _ (conj _ (conj _ _))))))).
    + (* invoke *)
      intros c Hc. rewrite invoke_S.
      destruct (Context.stage c =? 0).
      * destruct (Context.idx c <? len (Tango.handlers (Context.tan c))).
        -- destruct (index _ _) as [h|]; [|exact (proj1 Hc)].
           apply (sound_after _ (Context.Handle rs n h ;;; Context.ret tt)
                    (Context.emit (EvGlobal (Context.idx c)))).
           ++ apply sound_bind; [apply Hh | intros _; apply sound_ret].
           ++ intro c0. split; reflexivity.
           ++ exact Hc.
        -- apply Hex. exact Hc.
      * destruct (Context.stage c =? 1) eqn:Hs1; [|exact Hc].
        apply Z.eqb_eq in Hs1.
        destruct (Context.route c) as [rt|] eqn:Hr.
        -- destruct (Context.idx c <? len (Route.handlers rt)).
           ++ destruct (index _ _) as [h|]; [|exact (proj1 Hc)].
              apply (sound_after _ (Context.Handle rs n h ;;; Context.ret tt)
                       (Context.emit (EvLocal (Context.idx c)))).
              ** apply sound_bind; [apply Hh | intros _; apply sound_ret].
              ** intro c0. split; reflexivity.
              ** exact Hc.
           ++ apply Hex. exact Hc.
        -- exfalso. exact (proj2 (proj1 Hc) Hs1 Hr).
    + (* execute *)
      rewrite execute_S.
      apply sound_bind; [apply sound_newAction|]. intros _.
      apply sound_execute_resolved. exact IH.
    + (* Next *)
      intros c Hc. rewrite Next_S. apply Hinv.
      apply (well_resolved_same c); [exact Hc | reflexivity | reflexivity].
    + (* Handle *)
      intro h. rewrite Handle_S. apply sound_run.
      intro o. apply sound_calls. exact IH.
    + (* HandleError *)
      intros c Hc. rewrite HandleError_S.
      apply (sound_after _
               (Context.Handle rs n (Tango.ErrHandler (Context.tan c)) ;;; Context.ret tt)
               (Context.emit (EvErr (Context.Result c)))).
      * apply sound_bind; [apply Hh | intros _; apply sound_ret].
      * intro c0. split; reflexivity.
      * exact Hc.
    + rewrite Unauthorized_S. apply Hab.
    + intros message. rewrite NotFound_S. destruct message; apply Hab.
    + intros status body c Hc. rewrite Abort_S. apply Herr.
      apply (well_resolved_same c); [exact Hc | reflexivity | reflexivity].
Qed.

Lemma well_resolved_reset :
  forall rq rw c, well_resolved (Context.reset rq rw c).
Proof.
  intros rq rw c. unfold well_resolved, route_present. simpl.
  split; [split|]; intros; try discriminate. split; [reflexivity | discriminate].
Qed.

(** X15: from a context just reset, and from every context the chain
    returns, neither [invoke] nor [execute] ever meets a nil route where it
    dereferences one: wherever the chain stops (normally, in a panic, or out
    of budget) the context has a route if it has an action or is at stage 1,
    so a panic never comes from [ctx.route.handlers]. *)
Theorem route_never_nil_when_used :
  forall rs n c,
    well_resolved c ->
    let stops (A : Type) (r : Context.Res A) :=
      route_present (Context.final r)
      /\ (returned r = true -> well_resolved (Context.final r))
      /\ (Context.route (Context.final r) = None ->
          is_nil (Context.action (Context.final r)) = true
          /\ Context.stage (Context.final r) <> 1) in
    stops unit (Context.invoke rs n c)
    /\ stops unit (Context.execute rs n c)
    /\ stops unit (Context.Next rs n c)
    /\ (forall h, stops (list Value) (Context.Handle rs n h c)).
Proof.
  intros rs n c Hc stops.
  assert (Hstops : forall (A : Type) (m : Context.M A), sound m -> stops A (m c)).
  { intros A m Hm. specialize (Hm c Hc). unfold stops.
    assert (Hp : route_present (Context.final (m c)))
      by (destruct (m c); simpl; [exact (proj1 Hm) | exact Hm | exact Hm]).
    split; [exact Hp|]. split.
    - destruct (m c); simpl; intro H; [exact Hm | discriminate | discriminate].
    - intro Hnone. destruct Hp as [Ha Hs]. split.
      + destruct (is_nil (Context.action (Context.final (m c)))); [reflexivity|].
        exfalso. exact (Ha eq_refl Hnone).
      + intro H1. exact (Hs H1 Hnone). }
  destruct (chain_sound_all rs n) as (Hinv & Hex & Hnext & Hh & _).
  split; [exact (Hstops _ _ Hinv)|]. split; [exact (Hstops _ _ Hex)|].
  split; [exact (Hstops _ _ Hnext)|]. intro h. exact (Hstops _ _ (Hh h)).
Qed.

Lemma route_never_nil_when_used_witness :
  let boom := Do (GoPanic "boom") (Return []) in
  let rt := Sample.mkRoute FuncCtxRoute [pass; boom] (RawCtx (Return [])) Sample.noMethod in
  let c := Sample.fresh (Sample.dispatcher [Context.Contexts] Sample.renderError rt) "/foo" in
  let r := Context.invoke Sample.removeStick 30 c in
  returned r = false
  /\ Context.stage (Context.final r) = 1
  /\ route_present (Context.final r).
Proof.
  intros boom rt c r.
  split; [vm_compute; reflexivity|]. split; [vm_compute; reflexivity|].
  exact (proj1 (proj1 (route_never_nil_when_used Sample.removeStick 30 c
                         (well_resolved_reset _ _ _)))).
Defined.

(** ** Aborting from inside the action *)

(** X16: what a method-style action returns wins over an abort it made.
    When the method calls [Abort(status, body)] and then returns, the error
    handler has run once on the abort, and the result capture follows: with
    no return value [Result] is still the abort, but one return value, or a
    status and a payload, replace it. *)
Theorem return_value_replaces_abort :
  forall rs n c c1 rt ty status body rets,
    reaches_final_invoker rs c c1 rt ->
    Route.raw rt = RawOther ty ->
    Route.method rt (Context.nil_args (Context.callArgs c1))
    = Do (CallAbort status body) (Return rets) ->
    renders (Tango.ErrHandler (Context.tan c1)) = true ->
    exists c',
      Context.execute rs (S (S (S (S (S n))))) c = Context.Ok tt c'
      /\ Context.log c'
         = Context.log c1
             ++ [EvCall Reflective (Context.nil_args (Context.callArgs c1));
                 EvErr (tango.Abort status body)]
      /\ Context.Result c'
         = match rets with
           | [] => tango.Abort status body
           | [v] => v
           | [r0; v] =>
               match r0 with
               | IntV code => StatusResultPtr code v
               | _ => tango.Abort status body
               end
           | _ => tango.Abort status body
           end.
Proof.
  intros rs n c c1 rt ty status body rets Hreach Hraw Hm Hr.
  set (c2 := Context.emit
               (EvCall Reflective (Context.nil_args (Context.callArgs c1))) c1).
  destruct (Abort_renders rs n status body c2 Hr) as (c3 & Hab & Hio).
  destruct (same_but_io_fields _ _ Hio)
    as (_ & _ & _ & _ & _ & _ & _ & _ & _ & Hre & Hlog).
  simpl in Hre, Hlog. rewrite <- app_assoc in Hlog. simpl in Hlog.
  assert (Hcall : Context.Handle rs (S (S (S (S n))))
                    (Route.method rt (Context.nil_args (Context.callArgs c1))) c2
                  = Context.Ok rets c3).
  { rewrite Hm, Handle_S, run_Do, calls_Abort, Hab. reflexivity. }
  assert (Hex : Context.execute rs (S (S (S (S (S n))))) c = capture rets c3).
  { rewrite (execute_final_invoker rs _ c c1 rt Hreach).
    unfold Context.bind, callAction. rewrite Hraw. cbv beta iota.
    fold c2. rewrite Hcall. reflexivity. }
  rewrite Hex.
  destruct rets as [|r0 [|r1 [|r2 rest]]]; simpl.
  - exists c3. repeat split; assumption.
  - eexists. split; [reflexivity|]. simpl. split; [exact Hlog | reflexivity].
  - destruct r0; simpl;
      try (exists c3; repeat split; assumption).
    eexists. split; [reflexivity|]. simpl. split; [exact Hlog | reflexivity].
  - exists c3. repeat split; assumption.
Qed.

Lemma return_value_replaces_abort_witness :
  let rt := Sample.mkRoute StructRoute [] (RawOther "main.Action")
              (fun _ => Do (CallAbort 403 "no") (Return [StringV "ok"])) in
  let c := Sample.fresh (Sample.dispatcher [] Sample.renderError rt) "/foo" in
  exists c',
    Context.execute Sample.removeStick 5 c = Context.Ok tt c'
    /\ Context.Result c' = StringV "ok"
    /\ errors_handled (Context.log c') = 1%nat.
Proof.
  intros rt c.
  destruct (return_value_replaces_abort Sample.removeStick 0 c
              (Context.final (Context.newAction Sample.removeStick c)) rt
              "main.Action" 403 "no" [StringV "ok"])
    as (c' & Hex & Hlog & Hres).
  - repeat split.
  - reflexivity.
  - reflexivity.
  - reflexivity.
  - exists c'. split; [exact Hex|]. split; [exact Hres|].
    rewrite Hlog. reflexivity.
Defined.
